(** * API key manager (src/models/api-keys/index.ts)

    A shallow embedding of [ApiKeyManager]: the process-local [apiKeys] map,
    the redis cache, the [api_keys] table and the calls the manager makes to
    them.  Asynchronous functions become computations over an explicit
    [World]; a rejected promise is the outcome [Thrown].

    One call of the manager runs without interleaving with another.  The
    handles [idb] and [redb] of [@/common/db] address the same table.  What
    redis, the database and the webhook answer during a call is given by the
    [Conditions] of the call. *)

From stdpp Require Import base strings gmap list.
From Stdlib Require Import ZArith.

(** ** Data *)

(** JavaScript values that occur as record fields and query parameters. *)
Inductive JsValue :=
  | JsString (s : string)
  | JsNumber (n : Z)
  | JsBoolean (b : bool).

(** [ApiKeyRecord]; the optional [key] is [None] when the property is
    [undefined]. *)
Record ApiKeyRecord := {
  rec_app_name : string;
  rec_website : string;
  rec_email : string;
  rec_tier : Z;
  rec_key : option string;
}.

(** The [fields] object of update ([ApiKeyUpdateParams]): its own properties
    in order, [None] for a property whose value is undefined. *)
Abbreviation Fields := (list (string * option JsValue)).

(** A row of the [api_keys] table.  Modelled from the spec: the table is
    declared outside these sources; its layout is "key (text, primary key),
    appName, website, email (text), tier (integer), active (boolean)". *)
Record StoreRow := {
  row_key : string;
  row_app_name : string;
  row_website : string;
  row_email : string;
  row_tier : Z;
  row_active : bool;
}.

(** Modelled from the spec: the class [ApiKeyEntity] of
    [@/models/api-keys/api-key-entity], "an immutable read view constructed
    from either a Store row or a cached JSON blob" with the fields of the
    record. *)
Record ApiKeyEntity := {
  ent_key : string;
  ent_app_name : string;
  ent_website : string;
  ent_email : string;
  ent_tier : Z;
  ent_active : bool;
}.

Definition new_ApiKeyEntity (params : StoreRow) : ApiKeyEntity :=
  {| ent_key := row_key params;
     ent_app_name := row_app_name params;
     ent_website := row_website params;
     ent_email := row_email params;
     ent_tier := row_tier params;
     ent_active := row_active params |}.

(** What the manager takes from libraries and modules that are not part of
    these sources. *)
Class Externals := {
  (* uuid-by-string *)
  getUuidByString : string → string;
  (* lodash *)
  snakeCase : string → string;
  (* JSON.stringify on a row, JSON.stringify({ key }), JSON.parse
     ([None]: a SyntaxError is thrown) *)
  JSON_stringify : StoreRow → string;
  JSON_stringify_key : string → string;
  JSON_parse : string → option StoreRow;
  (* Channel.ApiKeyUpdated of @/pubsub/channels *)
  Channel_ApiKeyUpdated : string;
  (* column default of api_keys.active *)
  active_default : bool;
}.

(** ** Redis *)

Inductive RedisValue :=
  | RString (s : string)
  | RHash (fields : gmap string JsValue).

Record RedisEntry := {
  value : RedisValue;
  ttl : option Z; (* seconds; [None]: no expiration *)
}.

Inductive RedisCmd :=
  | GET (k : string)
  | SET (k v : string)
  | EXPIRE (k : string) (seconds : Z)
  | HSET (k : string) (fields : gmap string JsValue)
  | DEL (k : string)
  | PUBLISH (channel message : string).

(** Effect of one command on the keyspace and its bulk-string reply, if any;
    [None] is an error reply (WRONGTYPE). *)
Definition redis_exec (cmd : RedisCmd) (r : gmap string RedisEntry)
  : option (option string * gmap string RedisEntry) :=
  match cmd with
  | GET k =>
      match r !! k with
      | None => Some (None, r)
      | Some {| value := RString s |} => Some (Some s, r)
      | Some {| value := RHash _ |} => None
      end
  | SET k v => Some (None, <[k := {| value := RString v; ttl := None |}]> r)
  | EXPIRE k seconds =>
      match r !! k with
      | None => Some (None, r)
      | Some e => Some (None, <[k := {| value := value e; ttl := Some seconds |}]> r)
      end
  | HSET k fields =>
      match r !! k with
      | None => Some (None, <[k := {| value := RHash fields; ttl := None |}]> r)
      | Some {| value := RHash old; ttl := t |} =>
          Some (None, <[k := {| value := RHash (fields ∪ old); ttl := t |}]> r)
      | Some {| value := RString _ |} => None
      end
  | DEL k => Some (None, delete k r)
  | PUBLISH _ _ => Some (None, r)
  end.

(** ** The world the manager runs in *)

Inductive Query :=
  | Insert (values : ApiKeyRecord)
  | SelectActive (k : string)
  | Update (query : string) (replacementValues : gmap string JsValue).

Inductive Event :=
  | RedisCall (cmd : RedisCmd)
  | RedisPipeline (cmds : list RedisCmd)
  | StoreQuery (q : Query)
  | WebhookPost (values : ApiKeyRecord)
  | LogError (component : string).

Record World := {
  heap : gmap nat ApiKeyRecord;        (* record objects held by callers *)
  apiKeys : gmap string ApiKeyEntity;  (* ApiKeyManager.apiKeys *)
  redis : gmap string RedisEntry;
  api_keys : gmap string StoreRow;     (* the table, by primary key *)
  trace : list Event;                  (* calls made so far, oldest first *)
}.

Definition set_heap (h : gmap nat ApiKeyRecord) (w : World) : World :=
  {| heap := h; apiKeys := apiKeys w; redis := redis w;
     api_keys := api_keys w; trace := trace w |}.
Definition set_apiKeys (m : gmap string ApiKeyEntity) (w : World) : World :=
  {| heap := heap w; apiKeys := m; redis := redis w;
     api_keys := api_keys w; trace := trace w |}.
Definition set_redis (r : gmap string RedisEntry) (w : World) : World :=
  {| heap := heap w; apiKeys := apiKeys w; redis := r;
     api_keys := api_keys w; trace := trace w |}.
Definition set_api_keys (t : gmap string StoreRow) (w : World) : World :=
  {| heap := heap w; apiKeys := apiKeys w; redis := redis w;
     api_keys := t; trace := trace w |}.
Definition add_event (ev : Event) (w : World) : World :=
  {| heap := heap w; apiKeys := apiKeys w; redis := redis w;
     api_keys := api_keys w; trace := trace w ++ [ev] |}.

(** How a collaborator answers during one call of the manager. [Late]: the
    command is carried out but its reply arrives after the 1000 ms timer, so
    an awaited call completes and a call raced against the timer loses. *)
Inductive Reply := Resolves | Late | Rejects.

Record Conditions := {
  cache_get : Reply;   (* redis reads *)
  cache_put : Reply;   (* redis writes: set, expire, hset, del *)
  bus : Reply;         (* redis publish *)
  db_up : bool;        (* false: every query rejects *)
  webhook_up : bool;   (* false: the axios post rejects *)
}.

(** ** Promises *)

Inductive Error := RedisError | DbError | SyntaxError | TypeError | HttpError.

Inductive Outcome (A : Type) :=
  | Returned (a : A)
  | Thrown (e : Error).
Arguments Returned {A} a.
Arguments Thrown {A} e.

Definition Async (A : Type) : Type := World → Outcome A * World.

Global Instance Async_ret : MRet Async := λ A a w, (Returned a, w).
Global Instance Async_bind : MBind Async := λ A B f m w,
  match m w with
  | (Returned a, w') => f a w'
  | (Thrown e, w') => (Thrown e, w')
  end.

Definition throw {A} (e : Error) : Async A := λ w, (Thrown e, w).

(** try { body } catch (e) { handler e } *)
Definition try_catch {A} (body : Async A) (handler : Error → Async A) : Async A :=
  λ w, match body w with
       | (Returned a, w') => (Returned a, w')
       | (Thrown e, w') => handler e w'
       end.

(** A promise that is started and never awaited: its effects happen, its
    result and its rejection are not seen by the caller. *)
Definition fire_and_forget {A} (m : Async A) : Async unit :=
  λ w, (Returned (), (m w).2).

(** Promise.race([m, timeout]) for the timer of getApiKey, which resolves
    with null: [None] when the timer wins. *)
Definition race_timeout {A} (r : Reply) (m : Async A) : Async (option A) :=
  match r with
  | Late => λ w, (Returned None, (m w).2)
  | _ => a ← m; mret (Some a)
  end.

Definition emit (ev : Event) : Async unit := λ w, (Returned (), add_event ev w).

Definition logger_error (component : string) : Async unit :=
  emit (LogError component).

(** ** Collaborators *)

Definition redis_run (r : Reply) (cmd : RedisCmd) : Async (option string) :=
  λ w, match r with
       | Rejects => (Thrown RedisError, w)
       | _ =>
           match redis_exec cmd (redis w) with
           | Some (reply, r') => (Returned reply, set_redis r' w)
           | None => (Thrown RedisError, w)
           end
       end.

Definition redis_call (r : Reply) (cmd : RedisCmd) : Async (option string) :=
  emit (RedisCall cmd);; redis_run r cmd.

(** pipeline.exec(): the queued commands run in order; an error reply of one
    command does not stop the others and does not reject the promise. *)
Fixpoint redis_run_all (cmds : list RedisCmd) (r : gmap string RedisEntry)
  : gmap string RedisEntry :=
  match cmds with
  | [] => r
  | cmd :: rest =>
      match redis_exec cmd r with
      | Some (_, r') => redis_run_all rest r'
      | None => redis_run_all rest r
      end
  end.

Definition redis_pipeline_run (r : Reply) (cmds : list RedisCmd) : Async unit :=
  λ w, match r with
       | Rejects => (Thrown RedisError, w)
       | _ => (Returned (), set_redis (redis_run_all cmds (redis w)) w)
       end.

Definition redis_pipeline_exec (r : Reply) (cmds : list RedisCmd) : Async unit :=
  emit (RedisPipeline cmds);; redis_pipeline_run r cmds.

Section Manager.
Context `{Externals}.

(** The row an insert of [values] adds: its properties as columns, [active]
    at the column default. *)
Definition row_of_record (k : string) (values : ApiKeyRecord) : StoreRow :=
  {| row_key := k;
     row_app_name := rec_app_name values;
     row_website := rec_website values;
     row_email := rec_email values;
     row_tier := rec_tier values;
     row_active := active_default |}.

(** INSERT INTO api_keys (...) VALUES (...) ON CONFLICT DO NOTHING RETURNING 1
    through oneOrNone: [Some ()] is the returned row, [None] no row. *)
Definition insert_run (c : Conditions) (values : ApiKeyRecord) : Async (option unit) :=
  λ w, if db_up c then
         match rec_key values with
         | None => (Thrown DbError, w)
         | Some k =>
             match api_keys w !! k with
             | Some _ => (Returned None, w)
             | None =>
                 (Returned (Some ()),
                  set_api_keys (<[k := row_of_record k values]> (api_keys w)) w)
             end
         end
       else (Thrown DbError, w).

Definition idb_insert (c : Conditions) (values : ApiKeyRecord) : Async (option unit) :=
  emit (StoreQuery (Insert values));; insert_run c values.

(** SELECT * FROM api_keys WHERE key = $/key/ AND active = true *)
Definition select_active (k : string) (t : gmap string StoreRow) : option StoreRow :=
  match t !! k with
  | Some row => if row_active row then Some row else None
  | None => None
  end.

Definition select_run (c : Conditions) (k : string) : Async (option StoreRow) :=
  λ w, if db_up c then (Returned (select_active k (api_keys w)), w)
       else (Thrown DbError, w).

Definition redb_select_active (c : Conditions) (k : string) : Async (option StoreRow) :=
  emit (StoreQuery (SelectActive k));; select_run c k.

(** ** ApiKeyManager.getApiKey *)

Definition apiKeys_get (k : string) : Async (option ApiKeyEntity) :=
  λ w, (Returned (apiKeys w !! k), w).
Definition apiKeys_set (k : string) (e : ApiKeyEntity) : Async unit :=
  λ w, (Returned (), set_apiKeys (<[k := e]> (apiKeys w)) w).
Definition apiKeys_delete (k : string) : Async unit :=
  λ w, (Returned (), set_apiKeys (delete k (apiKeys w)) w).

(** [if (apiKey)] on the result of the race: null and the empty string are
    falsy. *)
Definition truthy (apiKey : option (option string)) : option string :=
  match apiKey with
  | Some (Some s) => if decide (s = "") then None else Some s
  | _ => None
  end.

Definition JSON_parse_or_throw (s : string) : Async StoreRow :=
  match JSON_parse s with
  | Some row => mret row
  | None => throw SyntaxError
  end.

Definition negative_ttl : Z := 3600 * 24.

(** The body of the try block: [Some v] when it executes [return v], [None]
    when control leaves the block and reaches the final [return null]. *)
Definition getApiKey_try (c : Conditions) (key redisKey : string)
  : Async (option (option ApiKeyEntity)) :=
  apiKey ← race_timeout (cache_get c) (redis_call (cache_get c) (GET redisKey));
  match truthy apiKey with
  | Some s =>
      if decide (s = "empty") then mret (Some None)
      else
        parsed ← JSON_parse_or_throw s;
        let apiKeyEntity := new_ApiKeyEntity parsed in
        apiKeys_set key apiKeyEntity;;
        mret (Some (Some apiKeyEntity))
  | None =>
      fromDb ← redb_select_active c key;
      match fromDb with
      | Some row =>
          fire_and_forget
            (race_timeout (cache_put c)
               (redis_call (cache_put c) (SET redisKey (JSON_stringify row))));;
          let apiKeyEntity := new_ApiKeyEntity row in
          apiKeys_set key apiKeyEntity;;
          mret (Some (Some apiKeyEntity))
      | None =>
          fire_and_forget
            (race_timeout (cache_put c)
               (redis_pipeline_exec (cache_put c)
                  [SET redisKey "empty"; EXPIRE redisKey negative_ttl]));;
          mret None
      end
  end.

Definition getApiKey (c : Conditions) (key : string) : Async (option ApiKeyEntity) :=
  cachedApiKey ← apiKeys_get key;
  match cachedApiKey with
  | Some e => mret (Some e)
  | None =>
      let redisKey := "api-key:" +:+ key in
      returned ← try_catch (getApiKey_try c key redisKey)
                   (λ _, logger_error "get-api-key";; mret None);
      match returned with
      | Some v => mret v
      | None => mret None
      end
  end.

(** ** ApiKeyManager.create *)

(** The text a template literal gives for an optional string property. *)
Definition template (v : option string) : string := default "undefined" v.

(** [!values.key]: undefined and the empty string are falsy. *)
Definition falsy (v : option string) : bool :=
  match v with
  | None => true
  | Some s => bool_decide (s = "")
  end.

Definition deref (values : nat) : Async ApiKeyRecord :=
  λ w, match heap w !! values with
       | Some v => (Returned v, w)
       | None => (Thrown TypeError, w)
       end.

Definition with_key (k : string) (v : ApiKeyRecord) : ApiKeyRecord :=
  {| rec_app_name := rec_app_name v; rec_website := rec_website v;
     rec_email := rec_email v; rec_tier := rec_tier v; rec_key := Some k |}.

(** values.key = k *)
Definition assign_key (values : nat) (k : string) : Async unit :=
  λ w, match heap w !! values with
       | Some v => (Returned (), set_heap (<[values := with_key k v]> (heap w)) w)
       | None => (Thrown TypeError, w)
       end.

Definition derive_key (v : ApiKeyRecord) : string :=
  getUuidByString (template (rec_key v) +:+ rec_email v +:+ rec_website v).

(** new Map(Object.entries(values)) *)
Definition Object_entries (v : ApiKeyRecord) : gmap string JsValue :=
  list_to_map
    ([("app_name", JsString (rec_app_name v)); ("website", JsString (rec_website v));
      ("email", JsString (rec_email v)); ("tier", JsNumber (rec_tier v))]
     ++ match rec_key v with
        | Some k => [("key", JsString k)]
        | None => []
        end).

Definition axios_post_run (c : Conditions) : Async unit :=
  λ w, if webhook_up c then (Returned (), w) else (Thrown HttpError, w).

Definition axios_post (c : Conditions) (v : ApiKeyRecord) : Async unit :=
  emit (WebhookPost v);; axios_post_run c.

Definition notifyApiKeyCreated (c : Conditions) (values : nat) : Async unit :=
  v ← deref values;
  try_catch (axios_post c v) (λ _, mret ()).

Inductive CreateResult :=
  | NewApiKeyResponse (key : option string)
  | CreateFalse.

Definition create (c : Conditions) (values : nat) : Async CreateResult :=
  v ← deref values;
  (if falsy (rec_key v) then assign_key values (derive_key v) else mret ());;
  created ← try_catch
               (v ← deref values; row ← idb_insert c v; mret (Some row))
               (λ _, logger_error "api-key";; mret None);
  match created with
  | None => mret CreateFalse
  | Some created =>
      try_catch
        (v ← deref values;
         let redisKey := "apikey:" +:+ template (rec_key v) in
         redis_call (cache_put c) (HSET redisKey (Object_entries v));;
         mret ())
        (λ _, logger_error "api-key");;
      match created with
      | Some _ => notifyApiKeyCreated c values
      | None => mret ()
      end;;
      v ← deref values;
      mret (NewApiKeyResponse (rec_key v))
  end.

(** ** ApiKeyManager.deleteCachedApiKey *)

Definition deleteCachedApiKey (c : Conditions) (key : string) : Async unit :=
  apiKeys_delete key;;
  redis_call (cache_put c) (DEL ("api-key:" +:+ key));;
  mret ().

(** ** ApiKeyManager.update *)

Fixpoint char_in (a : Ascii.ascii) (chars : string) : bool :=
  match chars with
  | EmptyString => false
  | String b rest => bool_decide (a = b) || char_in a rest
  end.

(** _.trimEnd(s, chars) *)
Fixpoint trimEnd (s chars : string) : string :=
  match s with
  | EmptyString => EmptyString
  | String a rest =>
      match trimEnd rest chars with
      | EmptyString => if char_in a chars then EmptyString else String a EmptyString
      | t => String a t
      end
  end.

(** The callback of _.forEach. *)
Definition update_step (acc : string * gmap string JsValue)
    (field : string * option JsValue) : string * gmap string JsValue :=
  match field.2 with
  | Some value =>
      (acc.1 +:+ (snakeCase field.1 +:+ " = $/" +:+ field.1 +:+ "/,"),
       <[field.1 := value]> acc.2)
  | None => acc
  end.

Definition update_build (key : string) (fields : Fields) : string * gmap string JsValue :=
  foldl update_step ("", {["key" := JsString key]}) fields.

Definition updateString (key : string) (fields : Fields) : string :=
  trimEnd (update_build key fields).1 ",".

Definition newline_indent : string :=
  String (Ascii.ascii_of_nat 10) "                   ".

Definition update_query (set_clause : string) : string :=
  "UPDATE api_keys" +:+ newline_indent +:+ "SET " +:+ set_clause
  +:+ newline_indent +:+ "WHERE key = $/key/".

(** The assignments the SET clause denotes: column and named parameter. *)
Definition assignments (fields : Fields) : list (string * string) :=
  omap (λ field, match field.2 with
                 | Some _ => Some (snakeCase field.1, field.1)
                 | None => None
                 end) fields.

Inductive ColumnType := TText | TInteger | TBoolean.

Definition column_type (col : string) : option ColumnType :=
  if decide (col = "key") then Some TText
  else if decide (col = "app_name") then Some TText
  else if decide (col = "website") then Some TText
  else if decide (col = "email") then Some TText
  else if decide (col = "tier") then Some TInteger
  else if decide (col = "active") then Some TBoolean
  else None.

Definition set_column (col : string) (v : JsValue) (row : StoreRow) : option StoreRow :=
  match column_type col, v with
  | Some TText, JsString s =>
      Some (if decide (col = "key") then
              {| row_key := s; row_app_name := row_app_name row;
                 row_website := row_website row; row_email := row_email row;
                 row_tier := row_tier row; row_active := row_active row |}
            else if decide (col = "app_name") then
              {| row_key := row_key row; row_app_name := s;
                 row_website := row_website row; row_email := row_email row;
                 row_tier := row_tier row; row_active := row_active row |}
            else if decide (col = "website") then
              {| row_key := row_key row; row_app_name := row_app_name row;
                 row_website := s; row_email := row_email row;
                 row_tier := row_tier row; row_active := row_active row |}
            else
              {| row_key := row_key row; row_app_name := row_app_name row;
                 row_website := row_website row; row_email := s;
                 row_tier := row_tier row; row_active := row_active row |})
  | Some TInteger, JsNumber n =>
      Some {| row_key := row_key row; row_app_name := row_app_name row;
              row_website := row_website row; row_email := row_email row;
              row_tier := n; row_active := row_active row |}
  | Some TBoolean, JsBoolean b =>
      Some {| row_key := row_key row; row_app_name := row_app_name row;
              row_website := row_website row; row_email := row_email row;
              row_tier := row_tier row; row_active := b |}
  | _, _ => None
  end.

Definition apply_assignments (asg : list (string * string))
    (rv : gmap string JsValue) (row : StoreRow) : option StoreRow :=
  foldl (λ acc a, r ← acc; v ← rv !! a.2; set_column a.1 v r) (Some row) asg.

Definition blank_row : StoreRow :=
  {| row_key := ""; row_app_name := ""; row_website := ""; row_email := "";
     row_tier := 0; row_active := false |}.

(** UPDATE api_keys SET ... WHERE key = $/key/ on the table; [None] when the
    statement is rejected: an empty SET clause, an unknown or repeated
    column, a value that is not of the column's type, a primary key that is
    taken. *)
Definition exec_update (asg : list (string * string)) (rv : gmap string JsValue)
    (t : gmap string StoreRow) : option (gmap string StoreRow) :=
  if bool_decide (asg = []) then None
  else if negb (bool_decide (NoDup asg.*1)) then None
  else
    match apply_assignments asg rv blank_row, rv !! "key" with
    | Some _, Some (JsString k) =>
        match t !! k with
        | None => Some t
        | Some row =>
            row' ← apply_assignments asg rv row;
            if decide (row_key row' = k) then Some (<[k := row']> t)
            else
              match t !! row_key row' with
              | Some _ => None
              | None => Some (<[row_key row' := row']> (delete k t))
              end
        end
    | _, _ => None
    end.

Definition update_run (c : Conditions) (asg : list (string * string))
    (rv : gmap string JsValue) : Async unit :=
  λ w, if db_up c then
         match exec_update asg rv (api_keys w) with
         | Some t => (Returned (), set_api_keys t w)
         | None => (Thrown DbError, w)
         end
       else (Thrown DbError, w).

(** idb.none(query, replacementValues); the statement is handed over as its
    text and, for its effect on the table, as the assignments it denotes. *)
Definition idb_none (c : Conditions) (query : string) (asg : list (string * string))
    (rv : gmap string JsValue) : Async unit :=
  emit (StoreQuery (Update query rv));; update_run c asg rv.

Definition update (c : Conditions) (key : string) (fields : Fields) : Async unit :=
  let replacementValues := (update_build key fields).2 in
  let query := update_query (updateString key fields) in
  idb_none c query (assignments fields) replacementValues;;
  deleteCachedApiKey c key;;
  redis_call (bus c) (PUBLISH Channel_ApiKeyUpdated (JSON_stringify_key key));;
  mret ().

End Manager.

(** ** A concrete instance, for running the manager on examples *)

Module Sample.

Definition is_upper (a : Ascii.ascii) : bool :=
  let n := Ascii.nat_of_ascii a in (65 <=? n)%nat && (n <=? 90)%nat.

Fixpoint camel_to_snake (s : string) : string :=
  match s with
  | EmptyString => EmptyString
  | String a rest =>
      if is_upper a then
        "_" +:+ String (Ascii.ascii_of_nat (Ascii.nat_of_ascii a + 32))
                  (camel_to_snake rest)
      else String a (camel_to_snake rest)
  end.

#[local] Instance externals : Externals := {|
  getUuidByString := λ s, "uuid(" +:+ s +:+ ")";
  snakeCase := camel_to_snake;
  JSON_stringify := λ row,
    "{key:" +:+ row_key row +:+ ",app_name:" +:+ row_app_name row +:+ "}";
  JSON_stringify_key := λ k, "{key:" +:+ k +:+ "}";
  JSON_parse := λ _, None;
  Channel_ApiKeyUpdated := "api-key-updated";
  active_default := true;
|}.

Definition calm : Conditions :=
  {| cache_get := Resolves; cache_put := Resolves; bus := Resolves;
     db_up := true; webhook_up := true |}.

(** redis reads reject. *)
Definition cache_down : Conditions :=
  {| cache_get := Rejects; cache_put := Resolves; bus := Resolves;
     db_up := true; webhook_up := true |}.

(** Every redis call answers after the timer. *)
Definition slow_cache : Conditions :=
  {| cache_get := Late; cache_put := Late; bus := Late;
     db_up := true; webhook_up := true |}.

Definition db_down : Conditions :=
  {| cache_get := Resolves; cache_put := Resolves; bus := Resolves;
     db_up := false; webhook_up := true |}.

(** Only the database answers. *)
Definition db_up_only : Conditions :=
  {| cache_get := Rejects; cache_put := Rejects; bus := Rejects;
     db_up := true; webhook_up := false |}.

Definition all_down : Conditions :=
  {| cache_get := Rejects; cache_put := Rejects; bus := Rejects;
     db_up := false; webhook_up := false |}.

Definition foo : ApiKeyRecord :=
  {| rec_app_name := "Foo"; rec_website := "foo.xyz"; rec_email := "a@b.com";
     rec_tier := 1; rec_key := None |}.

Definition abc_row : StoreRow :=
  {| row_key := "abc"; row_app_name := "Foo"; row_website := "foo.xyz";
     row_email := "a@b.com"; row_tier := 1; row_active := true |}.

Definition empty_world : World :=
  {| heap := ∅; apiKeys := ∅; redis := ∅; api_keys := ∅; trace := [] |}.

(** A caller holding the record [foo] at reference 0. *)
Definition foo_world : World := set_heap {[ 0%nat := foo ]} empty_world.

(** The table holds the row [abc_row]; both caches are empty. *)
Definition abc_world : World := set_api_keys {[ "abc" := abc_row ]} empty_world.

(** As [abc_world], with the negative marker of "zzz" in redis, 100 seconds
    before it expires. *)
Definition probed_world : World :=
  set_redis {[ "api-key:zzz" := {| value := RString "empty"; ttl := Some 100%Z |} ]}
    abc_world.

(** The identity of [foo] under another application name and tier. *)
Definition bar : ApiKeyRecord :=
  {| rec_app_name := "Bar"; rec_website := "foo.xyz"; rec_email := "a@b.com";
     rec_tier := 2; rec_key := None |}.

Definition bar_world : World := set_heap {[ 7%nat := bar ]} abc_world.

(** A record that brings its own key. *)
Definition abc_record : ApiKeyRecord :=
  {| rec_app_name := "Foo"; rec_website := "foo.xyz"; rec_email := "a@b.com";
     rec_tier := 1; rec_key := Some "abc" |}.

Definition abc_caller_world : World := set_heap {[ 0%nat := abc_record ]} empty_world.

(** As [abc_world], after a lookup of "abc": both cache tiers hold it. *)
Definition cached_world : World :=
  set_apiKeys {[ "abc" := new_ApiKeyEntity abc_row ]}
    (set_redis {[ "api-key:abc" :=
                    {| value := RString "{key:abc,app_name:Foo}"; ttl := None |} ]}
       abc_world).

Definition abc_row_tier5 : StoreRow :=
  {| row_key := "abc"; row_app_name := "Foo"; row_website := "foo.xyz";
     row_email := "a@b.com"; row_tier := 5; row_active := true |}.

(** { tier: 5, website: undefined } *)
Definition tier5 : Fields := [("tier", Some (JsNumber 5)); ("website", None)].

End Sample.

(** ** Vocabulary of the statements *)

(** The records handed to the webhook, in the order of the posts. *)
Definition notifications (t : list Event) : list ApiKeyRecord :=
  omap (λ ev, match ev with WebhookPost v => Some v | _ => None end) t.

Definition with_webhook (up : bool) (c : Conditions) : Conditions :=
  {| cache_get := cache_get c; cache_put := cache_put c; bus := bus c;
     db_up := db_up c; webhook_up := up |}.

Section Create_vocabulary.
Context `{Externals}.

(** The record as create leaves it after its first statement. *)
Definition keyed (v : ApiKeyRecord) : ApiKeyRecord :=
  if falsy (rec_key v) then with_key (derive_key v) v else v.

(** The insert finds no row under [k] and adds one. *)
Definition inserts (c : Conditions) (k : string) (w : World) : bool :=
  db_up c && match api_keys w !! k with None => true | Some _ => false end.

(** The keyspace after create's HSET, when that command succeeds. *)
Definition hset_result (c : Conditions) (k : string) (v : ApiKeyRecord) (w : World)
  : option (gmap string RedisEntry) :=
  match cache_put c with
  | Rejects => None
  | _ => snd <$> redis_exec (HSET ("apikey:" +:+ k) (Object_entries v)) (redis w)
  end.

(** The calls create makes on a record that ends up with key [k]. *)
Definition create_trace (c : Conditions) (k : string) (v : ApiKeyRecord) (w : World)
  : list Event :=
  StoreQuery (Insert v) ::
  (if db_up c then
     RedisCall (HSET ("apikey:" +:+ k) (Object_entries v)) ::
     match hset_result c k v w with
     | Some _ => []
     | None => [LogError "api-key"]
     end ++
     (if inserts c k w then [WebhookPost v] else [])
   else [LogError "api-key"]).

End Create_vocabulary.

(** A well-formed SET clause: the assignments [column = $/parameter/],
    separated by commas. *)
Definition render (a : string * string) : string :=
  a.1 +:+ " = $/" +:+ a.2 +:+ "/".

Fixpoint set_clause (asg : list (string * string)) : string :=
  match asg with
  | [] => ""
  | [a] => render a
  | a :: rest => render a +:+ "," +:+ set_clause rest
  end.

(** The text the forEach of update accumulates: every assignment followed by
    a comma. *)
Definition with_commas (asg : list (string * string)) : string :=
  foldr (λ a s, render a +:+ "," +:+ s) "" asg.

(** ** ApiKeyManager.logUsage *)

(** A value of a request, as far as logUsage looks at it: whether it is
    truthy, and what it is when it is copied into the log. *)
Inductive JsAny :=
  | JsUndefined
  | JsNull
  | JsPrimitive (v : JsValue)
  | JsObject (properties : list (string * JsValue)).

Definition js_truthy (v : JsAny) : bool :=
  match v with
  | JsUndefined | JsNull => false
  | JsPrimitive (JsString s) => negb (bool_decide (s = ""))
  | JsPrimitive (JsNumber n) => negb (bool_decide (n = 0%Z))
  | JsPrimitive (JsBoolean b) => b
  | JsObject _ => true
  end.

(** The parts of hapi's [Request] that logUsage reads. *)
Record Request := {
  req_route_path : string;
  req_route_method : string;
  req_payload : JsAny;
  req_params : JsAny;
  req_query : JsAny;
  req_headers : gmap string string;
  req_info_referrer : string;
}.

Inductive LogValue :=
  | LogString (s : string)
  | LogAny (v : JsAny)
  | LogEntity (apiKey : ApiKeyEntity)
  | LogAppName (app_name : string). (* the object { app_name } *)

(** The [log] object: its properties in the order they are assigned. *)
Abbreviation Log := (list (string * LogValue)).

(** Lines written with logger.info: the metrics line, with the object handed
    to JSON.stringify, and the line of the catch block. *)
Inductive InfoLine :=
  | Metrics (log : Log)
  | ApiKeyInfo (e : Error).

Record Server := {
  world : World;
  info_log : list InfoLine;
}.

(** A header that is present and not the empty string. *)
Definition header (request : Request) (name : string) : option string :=
  match req_headers request !! name with
  | Some s => if decide (s = "") then None else Some s
  | None => None
  end.

(** if (request.headers[name]) log[property] = request.headers[name] *)
Definition log_header (request : Request) (name property : string) (log : Log) : Log :=
  match header request name with
  | Some s => log ++ [(property, LogString s)]
  | None => log
  end.

(** if (v) log[property] = v *)
Definition log_any (v : JsAny) (property : string) (log : Log) : Log :=
  if js_truthy v then log ++ [(property, LogAny v)] else log.

(** The log object before the key is looked at. *)
Definition request_log (request : Request) : Log :=
  let log := [("route", LogString (req_route_path request));
              ("method", LogString (req_route_method request))] in
  let log := log_any (req_payload request) "payload" log in
  let log := log_any (req_params request) "params" log in
  let log := log_any (req_query request) "query" log in
  let log := log_header request "x-forwarded-for" "remoteAddress" log in
  let log := log_header request "origin" "origin" log in
  let log := log_header request "x-rkui-version" "rkuiVersion" log in
  let log := log_header request "x-rkc-version" "rkcVersion" log in
  let log := if decide (req_info_referrer request = "") then log
             else log ++ [("referrer", LogString (req_info_referrer request))] in
  log_header request "host" "hostname" log.

Section LogUsage.
Context `{Externals}.

Definition logUsage (c : Conditions) (request : Request) (s : Server)
  : Outcome unit * Server :=
  let log := request_log request in
  let '(log, w, lines) :=
    match header request "x-api-key" with
    | Some key =>
        match getApiKey c key (world s) with
        | (Returned (Some apiKey), w) => (log ++ [("apiKey", LogEntity apiKey)], w, [])
        | (Returned None, w) => (log ++ [("apiKey", LogAppName key)], w, [])
        | (Thrown e, w) => (log, w, [ApiKeyInfo e])
        end
    | None => (log ++ [("apiKey", LogAppName "No Key")], world s, [])
    end in
  (Returned (), {| world := w; info_log := info_log s ++ lines ++ [Metrics log] |}).

End LogUsage.

(** ** More sample inputs *)

Module Sample_cache.

Definition cached_abc : string := "{key:abc,app_name:Foo}".

(** As [Sample.externals], with a JSON.parse that reads the serialized
    sample row. *)
#[local] Instance externals : Externals := {|
  getUuidByString := λ s, "uuid(" +:+ s +:+ ")";
  snakeCase := Sample.camel_to_snake;
  JSON_stringify := λ row,
    "{key:" +:+ row_key row +:+ ",app_name:" +:+ row_app_name row +:+ "}";
  JSON_stringify_key := λ k, "{key:" +:+ k +:+ "}";
  JSON_parse := λ s, if decide (s = cached_abc) then Some Sample.abc_row else None;
  Channel_ApiKeyUpdated := "api-key-updated";
  active_default := true;
|}.

(** redis holds "abc"; the process-local map and the table are empty. *)
Definition redis_only_world : World :=
  set_redis {[ "api-key:abc" := {| value := RString cached_abc; ttl := None |} ]}
    Sample.empty_world.

(** redis holds the empty string for "abc", which has an active row. *)
Definition blank_entry_world : World :=
  set_redis {[ "api-key:abc" := {| value := RString ""; ttl := None |} ]}
    Sample.abc_world.

(** A GET with the key of [Sample.abc_row] in its header. *)
Definition get_collections : Request :=
  {| req_route_path := "/collections/v5"; req_route_method := "get";
     req_payload := JsNull; req_params := JsObject [];
     req_query := JsObject [("limit", JsNumber 20)];
     req_headers := {[ "x-api-key" := "abc"; "host" := "api.example.org" ]};
     req_info_referrer := "" |}.

Definition anonymous : Request :=
  {| req_route_path := "/collections/v5"; req_route_method := "get";
     req_payload := JsNull; req_params := JsObject [];
     req_query := JsObject [];
     req_headers := {[ "x-api-key" := "" ]};
     req_info_referrer := "" |}.

Definition wrong_key : Request :=
  {| req_route_path := "/collections/v5"; req_route_method := "get";
     req_payload := JsNull; req_params := JsObject [];
     req_query := JsObject [];
     req_headers := {[ "x-api-key" := "zzz" ]};
     req_info_referrer := "" |}.

(** Only the publish is rejected. *)
Definition bus_down : Conditions :=
  {| cache_get := Resolves; cache_put := Resolves; bus := Rejects;
     db_up := true; webhook_up := true |}.

Definition quiet (w : World) : Server := {| world := w; info_log := [] |}.

End Sample_cache.

Module Sample_blank.

(** [Sample.foo] and [Sample.bar] with the empty string as key. *)
Definition foo_blank : ApiKeyRecord :=
  {| rec_app_name := "Foo"; rec_website := "foo.xyz"; rec_email := "a@b.com";
     rec_tier := 1; rec_key := Some "" |}.

Definition bar_blank : ApiKeyRecord :=
  {| rec_app_name := "Bar"; rec_website := "foo.xyz"; rec_email := "a@b.com";
     rec_tier := 2; rec_key := Some "" |}.

Definition foo_blank_world : World :=
  set_heap {[ 0%nat := foo_blank ]} Sample.empty_world.

Definition bar_blank_world : World :=
  set_heap {[ 7%nat := bar_blank ]} Sample.abc_world.

End Sample_blank.

(** * Properties *)

(** ** Strings *)

Section Strings.

Lemma append_cons a (s t : string) : String a s +:+ t = String a (s +:+ t).
Proof. reflexivity. Qed.

Lemma append_assoc (s1 s2 s3 : string) : (s1 +:+ s2) +:+ s3 = s1 +:+ s2 +:+ s3.
Proof.
  induction s1 as [|a s1 IH]; [reflexivity|].
  rewrite !append_cons. f_equal. exact IH.
Qed.

Lemma append_nonempty_r (s t : string) : t ≠ "" → s +:+ t ≠ "".
Proof. destruct s; [auto|]. rewrite append_cons. discriminate. Qed.

(** Trimming looks at the end only: a suffix that survives trimming shields
    everything before it. *)
Lemma trimEnd_app (s t chars : string) :
  trimEnd t chars ≠ "" → trimEnd (s +:+ t) chars = s +:+ trimEnd t chars.
Proof.
  intros Ht. induction s as [|a s IH]; [reflexivity|].
  rewrite !append_cons. cbn [trimEnd].
  rewrite IH. destruct (s +:+ trimEnd t chars) eqn:Hs; [|reflexivity].
  exfalso. revert Hs. by apply append_nonempty_r.
Qed.

Lemma with_commas_set_clause asg :
  asg ≠ [] → with_commas asg = set_clause asg +:+ ",".
Proof.
  induction asg as [|a [|b rest] IH]; intros Hne; [done|reflexivity|].
  change (with_commas (a :: b :: rest))
    with (render a +:+ "," +:+ with_commas (b :: rest)).
  change (set_clause (a :: b :: rest))
    with (render a +:+ "," +:+ set_clause (b :: rest)).
  rewrite IH by done. by rewrite !append_assoc.
Qed.

Lemma render_slash a : ∃ body, render a = body +:+ "/".
Proof.
  exists (a.1 +:+ " = $/" +:+ a.2). unfold render. by rewrite !append_assoc.
Qed.

Lemma set_clause_slash asg : asg ≠ [] → ∃ body, set_clause asg = body +:+ "/".
Proof.
  induction asg as [|a [|b rest] IH]; intros Hne; [done|apply render_slash|].
  destruct IH as [body Hbody]; [done|].
  exists (render a +:+ "," +:+ body).
  change (set_clause (a :: b :: rest))
    with (render a +:+ "," +:+ set_clause (b :: rest)).
  rewrite Hbody. by rewrite !append_assoc.
Qed.

Lemma trimEnd_with_commas asg :
  asg ≠ [] → trimEnd (with_commas asg) "," = set_clause asg.
Proof.
  intros Hne. rewrite with_commas_set_clause by done.
  destruct (set_clause_slash asg Hne) as [body ->].
  rewrite append_assoc. rewrite trimEnd_app; [reflexivity|discriminate].
Qed.

Lemma set_clause_nonempty asg : asg ≠ [] → set_clause asg ≠ "".
Proof.
  intros Hne. destruct (set_clause_slash asg Hne) as [body ->].
  by apply append_nonempty_r.
Qed.

End Strings.

Section Properties.
Context `{Externals}.

#[local] Arguments String.append : simpl never.
#[local] Arguments select_active : simpl never.

(** Unfolds the promise combinators and the collaborators' calls. *)
Ltac run :=
  cbv [getApiKey getApiKey_try try_catch fire_and_forget race_timeout
       redis_call redis_run redis_exec redis_run_all redis_pipeline_exec
       redis_pipeline_run emit logger_error apiKeys_get apiKeys_set
       apiKeys_delete redb_select_active select_run idb_insert insert_run
       JSON_parse_or_throw throw truthy
       create deref assign_key notifyApiKeyCreated axios_post axios_post_run
       update deleteCachedApiKey idb_none update_run
       with_key falsy template default from_option id
       rec_key rec_email rec_website rec_app_name rec_tier
       add_event set_redis set_apiKeys set_api_keys set_heap
       mbind Async_bind mret Async_ret fst snd
       heap apiKeys redis api_keys trace
       cache_get cache_put bus db_up webhook_up].

Ltac open_world c w :=
  destruct c as [cget cput cbus cdb chook], w as [hp local rd tbl tr];
  simpl in *; subst.

(** ** getApiKey *)

(** Step 1: a hit in the process-local map returns at once and leaves the
    world, its trace included, as it was. *)
Lemma getApiKey_local_hit c key w e :
  apiKeys w !! key = Some e →
  getApiKey c key w = (Returned (Some e), w).
Proof. intros Hlocal. open_world c w. run. rewrite Hlocal. reflexivity. Qed.

(** getApiKey never rejects: whatever the collaborators do, the promise
    resolves. *)
Lemma getApiKey_resolves c key w :
  ∃ result, (getApiKey c key w).1 = Returned result.
Proof.
  open_world c w. run.
  destruct (local !! key); [eauto|].
  destruct cget; run;
    destruct (rd !! ("api-key:" +:+ key)) as [[[s|h] t]|]; run; eauto;
    repeat (match goal with
            | |- context [decide ?P] => destruct (decide P)
            | |- context [JSON_parse ?s] => destruct (JSON_parse s)
            | |- context [select_active ?k ?t] => destruct (select_active k t)
            | |- context [match ?b with true => _ | false => _ end] =>
                is_var b; destruct b
            end; run; eauto).
Qed.

(** X2: a cached negative marker answers null with one cache read and
    nothing else: no Store query and no cache write. *)
Lemma getApiKey_negative_hit c key w t :
  apiKeys w !! key = None →
  cache_get c = Resolves →
  redis w !! ("api-key:" +:+ key) = Some {| value := RString "empty"; ttl := t |} →
  getApiKey c key w =
    (Returned None, add_event (RedisCall (GET ("api-key:" +:+ key))) w).
Proof.
  intros Hlocal Hget Hneg. open_world c w. run. rewrite Hlocal, Hneg.
  reflexivity.
Qed.

(** C1 (as amended): when the cache read rejects, getApiKey logs the failure
    and returns null; the catch block ends the lookup, so the Store is not
    queried and neither cache tier is written. *)
Theorem getApiKey_cache_read_error c key w :
  apiKeys w !! key = None →
  cache_get c = Rejects →
  getApiKey c key w =
    (Returned None,
     add_event (LogError "get-api-key")
       (add_event (RedisCall (GET ("api-key:" +:+ key))) w)).
Proof.
  intros Hlocal Hget. open_world c w. run. rewrite Hlocal. reflexivity.
Qed.

(** C8: when the cache read does not resolve within the timeout, getApiKey
    treats the tier as missed, queries the Store and resolves with the entity
    of the active row. *)
Theorem getApiKey_cache_timeout c key w row :
  apiKeys w !! key = None →
  cache_get c = Late →
  db_up c = true →
  select_active key (api_keys w) = Some row →
  (getApiKey c key w).1 = Returned (Some (new_ApiKeyEntity row)) ∧
  trace (getApiKey c key w).2 =
    trace w ++ [RedisCall (GET ("api-key:" +:+ key));
                StoreQuery (SelectActive key);
                RedisCall (SET ("api-key:" +:+ key) (JSON_stringify row))].
Proof.
  intros Hlocal Hget Hdb Hrow. open_world c w. run. rewrite Hlocal.
  destruct (rd !! ("api-key:" +:+ key)) as [[[s|h] t]|]; run; rewrite Hrow;
    destruct cput; run; rewrite <- ?app_assoc; auto.
Qed.

(** C5 (as amended): a key that misses the process-local map, has no entry
    in redis (or whose cache read times out) and has no active row makes
    getApiKey return null after queueing SET "empty" and EXPIRE 86400 on the
    namespaced key; the process-local map is left alone. *)
Theorem getApiKey_unknown_key c key w :
  apiKeys w !! key = None →
  cache_get c = Late ∨
    (cache_get c = Resolves ∧ redis w !! ("api-key:" +:+ key) = None) →
  cache_put c ≠ Rejects →
  db_up c = true →
  select_active key (api_keys w) = None →
  (getApiKey c key w).1 = Returned None ∧
  trace (getApiKey c key w).2 =
    trace w ++ [RedisCall (GET ("api-key:" +:+ key));
                StoreQuery (SelectActive key);
                RedisPipeline [SET ("api-key:" +:+ key) "empty";
                               EXPIRE ("api-key:" +:+ key) 86400%Z]] ∧
  redis (getApiKey c key w).2 !! ("api-key:" +:+ key) =
    Some {| value := RString "empty"; ttl := Some 86400%Z |} ∧
  apiKeys (getApiKey c key w).2 = apiKeys w.
Proof.
  intros Hlocal Hmiss Hput Hdb Hrow. open_world c w.
  assert (Hfinal : ∀ r : gmap string RedisEntry,
    <["api-key:" +:+ key := {| value := RString "empty"; ttl := None |}]> r
      !! ("api-key:" +:+ key)
    = Some {| value := RString "empty"; ttl := None |})
    by (intros; apply lookup_insert_eq).
  destruct Hmiss as [->|[-> Hnone]]; run; rewrite Hlocal.
  - destruct (rd !! ("api-key:" +:+ key)) as [[[s|h] t]|]; run; rewrite Hrow;
      destruct cput; try done; run; rewrite Hfinal; run;
      rewrite insert_insert_eq, lookup_insert_eq, <- !app_assoc; auto.
  - rewrite Hnone. run. rewrite Hrow.
    destruct cput; try done; run; rewrite Hfinal; run;
      rewrite insert_insert_eq, lookup_insert_eq, <- !app_assoc; auto.
Qed.

(** C6: for an active key that only the Store knows, the first getApiKey
    returns the entity and leaves it in the process-local map and, under the
    namespaced key and without expiration, in redis; a second getApiKey in
    the same process returns the same entity and changes nothing, so it makes
    no Store and no redis call. *)
Theorem getApiKey_populates_then_local c1 c2 key w row :
  apiKeys w !! key = None →
  redis w !! ("api-key:" +:+ key) = None →
  select_active key (api_keys w) = Some row →
  cache_get c1 ≠ Rejects →
  cache_put c1 ≠ Rejects →
  db_up c1 = true →
  let first := getApiKey c1 key w in
  first.1 = Returned (Some (new_ApiKeyEntity row)) ∧
  apiKeys first.2 !! key = Some (new_ApiKeyEntity row) ∧
  redis first.2 !! ("api-key:" +:+ key) =
    Some {| value := RString (JSON_stringify row); ttl := None |} ∧
  getApiKey c2 key first.2 = (Returned (Some (new_ApiKeyEntity row)), first.2).
Proof.
  intros Hlocal Hnone Hrow Hget Hput Hdb first.
  assert (Hcached : apiKeys first.2 !! key = Some (new_ApiKeyEntity row) ∧
                    first.1 = Returned (Some (new_ApiKeyEntity row)) ∧
                    redis first.2 !! ("api-key:" +:+ key) =
                      Some {| value := RString (JSON_stringify row); ttl := None |}).
  { subst first. open_world c1 w. run. rewrite Hlocal.
    destruct cget; try done; run; rewrite Hnone; run; rewrite Hrow;
      destruct cput; try done; run; rewrite !lookup_insert_eq; auto. }
  destruct Hcached as (Hmap & Hres & Hredis).
  repeat split; try assumption.
  apply getApiKey_local_hit, Hmap.
Qed.

(** ** create *)


Lemma notifications_app t1 t2 :
  notifications (t1 ++ t2) = notifications t1 ++ notifications t2.
Proof. apply omap_app. Qed.

(** Running a computation step by step. *)
Lemma bind_intro {A B} (m : Async A) (f : A → Async B) w a w1 res :
  m w = (Returned a, w1) → f a w1 = res → (m ≫= f) w = res.
Proof. intros Hm Hf. unfold mbind, Async_bind. rewrite Hm. exact Hf. Qed.

Lemma deref_run values w v :
  heap w !! values = Some v → deref values w = (Returned v, w).
Proof. intros Hv. unfold deref. rewrite Hv. reflexivity. Qed.

(** The first statement of create leaves the record [keyed v] at [values]
    and touches nothing else. *)
Lemma create_assigns_key values w v :
  heap w !! values = Some v →
  ∃ w1,
    (if falsy (rec_key v) then assign_key values (derive_key v) else mret ()) w
      = (Returned (), w1) ∧
    heap w1 = (if falsy (rec_key v) then <[values := keyed v]> (heap w) else heap w) ∧
    heap w1 !! values = Some (keyed v) ∧
    apiKeys w1 = apiKeys w ∧ redis w1 = redis w ∧
    api_keys w1 = api_keys w ∧ trace w1 = trace w.
Proof.
  intros Hv. unfold keyed, assign_key. destruct (falsy (rec_key v)).
  - rewrite Hv. eexists. split; [reflexivity|]. simpl.
    rewrite lookup_insert_eq. repeat split; reflexivity.
  - exists w. repeat split; auto.
Qed.

(** create, run to its end on a record the caller holds at [values]. *)
Lemma create_run c values w v k :
  heap w !! values = Some v →
  rec_key (keyed v) = Some k →
  create c values w =
    (Returned (if db_up c then NewApiKeyResponse (Some k) else CreateFalse),
     {| heap := if falsy (rec_key v) then <[values := keyed v]> (heap w) else heap w;
        apiKeys := apiKeys w;
        redis := if db_up c then default (redis w) (hset_result c k (keyed v) w)
                 else redis w;
        api_keys := if inserts c k w
                    then <[k := row_of_record k (keyed v)]> (api_keys w)
                    else api_keys w;
        trace := trace w ++ create_trace c k (keyed v) w |}).
Proof.
  intros Hv Hk. unfold create.
  eapply bind_intro; [exact (deref_run _ _ _ Hv)|]. cbv beta.
  destruct (create_assigns_key values w v Hv)
    as (w1 & Hstep & Hheap & Hv1 & Hlocal & Hredis & Htable & Htrace).
  eapply bind_intro; [exact Hstep|]. cbv beta.
  destruct w1 as [hp1 local1 rd1 tbl1 tr1]. simpl in *. subst.
  remember (keyed v) as v' eqn:Hv'. clear Hv' Hstep.
  unfold create_trace, inserts, hset_result.
  destruct c as [cget cput cbus cdb chook], w as [hp local rd tbl tr].
  cbn [cache_get cache_put bus db_up webhook_up heap apiKeys redis api_keys trace] in *.
  set (hp1 := if falsy (rec_key v) then <[values:=v']> hp else hp) in *.
  clearbody hp1. clear Hv v.
  destruct v' as [an ws em ti ky]. simpl in Hk. subst ky.
  unfold redis_exec.
  destruct cdb.
  - destruct (tbl !! k) as [taken|] eqn:Htbl; destruct cput;
      try destruct (rd !! ("apikey:" +:+ k)) as [[[s|h] t]|] eqn:Hrd;
      destruct chook;
      repeat (first [ rewrite Hv1 | rewrite Htbl | rewrite Hrd | progress run ]);
      simpl; rewrite <- ?app_assoc; reflexivity.
  - repeat (first [ rewrite Hv1 | progress run ]);
      rewrite <- ?app_assoc; reflexivity.
Qed.

(** C3 (as amended): create derives a key when the key of the record is
    undefined or the empty string, from the text that the template gives:
    "undefined" or nothing, followed by the email and the website. Two calls
    that pass the same of these two keys and the same email and website
    return the same key. *)
Theorem create_derived_key_deterministic c1 c2 values1 values2 w1 w2 v1 v2 :
  heap w1 !! values1 = Some v1 →
  heap w2 !! values2 = Some v2 →
  falsy (rec_key v1) = true →
  rec_key v2 = rec_key v1 →
  rec_email v1 = rec_email v2 →
  rec_website v1 = rec_website v2 →
  db_up c1 = true →
  db_up c2 = true →
  ∃ prefix,
    (rec_key v1 = None ∧ prefix = "undefined" ∨
     rec_key v1 = Some "" ∧ prefix = "") ∧
    (create c1 values1 w1).1 =
      Returned (NewApiKeyResponse
        (Some (getUuidByString (prefix +:+ rec_email v1 +:+ rec_website v1)))) ∧
    (create c2 values2 w2).1 = (create c1 values1 w1).1.
Proof.
  intros Hv1 Hv2 Hfalsy Hsame Hemail Hsite Hdb1 Hdb2.
  assert (Hfalsy2 : falsy (rec_key v2) = true) by (by rewrite Hsame).
  assert (Hkeyed : ∀ v, falsy (rec_key v) = true →
            rec_key (keyed v) =
              Some (getUuidByString
                      (template (rec_key v) +:+ rec_email v +:+ rec_website v))).
  { intros v Hk. unfold keyed, derive_key. rewrite Hk. reflexivity. }
  exists (template (rec_key v1)). split.
  - destruct (rec_key v1) as [k|]; [|left; done].
    right. cbn in Hfalsy. apply bool_decide_eq_true_1 in Hfalsy as ->. done.
  - rewrite (create_run c1 values1 w1 v1 _ Hv1 (Hkeyed v1 Hfalsy)).
    rewrite (create_run c2 values2 w2 v2 _ Hv2 (Hkeyed v2 Hfalsy2)).
    simpl. rewrite Hdb1, Hdb2, Hsame, Hemail, Hsite. auto.
Qed.

(** C4: create posts to the webhook once when its insert adds the row and
    not at all when the row exists or the Store write fails; whether the post
    succeeds does not change what create returns. *)
Theorem create_notifies_iff_inserted c values w v k :
  heap w !! values = Some v →
  rec_key (keyed v) = Some k →
  let after := (create c values w).2 in
  (db_up c = true ∧ api_keys w !! k = None →
     notifications (trace after) = notifications (trace w) ++ [keyed v] ∧
     api_keys after !! k = Some (row_of_record k (keyed v))) ∧
  (db_up c = false ∨ is_Some (api_keys w !! k) →
     notifications (trace after) = notifications (trace w) ∧
     api_keys after = api_keys w) ∧
  ∀ up, (create (with_webhook up c) values w).1 = (create c values w).1.
Proof.
  intros Hv Hk after. subst after.
  rewrite (create_run c values w v k Hv Hk). cbn [fst snd trace api_keys].
  rewrite notifications_app. unfold create_trace, inserts.
  split; [|split].
  - intros [-> ->]. cbn [andb]. rewrite lookup_insert_eq. split; [|reflexivity].
    f_equal. cbn. destruct (hset_result _ _ _ _); reflexivity.
  - intros [->|[row ->]]; [|destruct (db_up c)]; cbn;
      try destruct (hset_result _ _ _ _); cbn; rewrite ?app_nil_r; auto.
  - intros up. rewrite (create_run (with_webhook up c) values w v k Hv Hk).
    reflexivity.
Qed.


(** ** update *)

Lemma update_build_string fields acc :
  (foldl update_step acc fields).1 = acc.1 +:+ with_commas (assignments fields).
Proof.
  revert acc. induction fields as [|[name [value|]] rest IH]; intros acc.
  - destruct acc as [text rv]. simpl. induction text as [|a text IHt];
      [reflexivity|]. rewrite append_cons. by rewrite <- IHt.
  - cbn [foldl]. rewrite IH. unfold update_step. cbn [fst snd].
    change (assignments ((name, Some value) :: rest))
      with ((snakeCase name, name) :: assignments rest).
    cbn [with_commas foldr]. unfold render. cbn [fst snd].
    by rewrite !append_assoc.
  - cbn [foldl]. rewrite IH. reflexivity.
Qed.

Lemma updateString_with_commas key fields :
  updateString key fields = trimEnd (with_commas (assignments fields)) ",".
Proof. unfold updateString, update_build. by rewrite update_build_string. Qed.

Lemma assignments_defined fields :
  assignments fields =
    (λ field, (snakeCase field.1, field.1)) <$> filter (λ field, is_Some field.2) fields.
Proof.
  induction fields as [|[name [value|]] rest IH].
  - reflexivity.
  - rewrite filter_cons.
    destruct (decide _) as [_|Hundefined]; [|destruct Hundefined; simpl; eauto].
    rewrite fmap_cons, <- IH. reflexivity.
  - rewrite filter_cons.
    destruct (decide _) as [[v Hdefined]|_]; [discriminate|exact IH].
Qed.

Lemma assignments_nonempty fields :
  Exists (λ field, is_Some field.2) fields → assignments fields ≠ [].
Proof.
  induction 1 as [[name value] rest [v Hv]|[name [value|]] rest _ IH];
    simpl in *; subst; try discriminate. exact IH.
Qed.

Lemma assignments_undefined fields :
  Forall (λ field, field.2 = None) fields → assignments fields = [].
Proof.
  induction 1 as [|[name value] rest Hnone _ IH]; [reflexivity|].
  simpl in Hnone. subst value. exact IH.
Qed.

Lemma update_build_undefined key fields :
  Forall (λ field, field.2 = None) fields →
  update_build key fields = ("", {["key" := JsString key]}).
Proof.
  unfold update_build. generalize ("", ({["key" := JsString key]} : gmap string JsValue)).
  intros acc. induction 1 as [|[name value] rest Hnone _ IH]; [reflexivity|].
  simpl in Hnone. subst value. exact IH.
Qed.


(** A statement the Store rejects ends update there: nothing is evicted and
    nothing is published. *)
Lemma update_run_rejected c key fields w :
  exec_update (assignments fields) (update_build key fields).2 (api_keys w) = None →
  update c key fields w =
    (Thrown DbError,
     add_event (StoreQuery (Update (update_query (updateString key fields))
                              (update_build key fields).2)) w).
Proof.
  intros Hexec. open_world c w. unfold update.
  set (rv := (update_build key fields).2) in *. clearbody rv.
  run. rewrite Hexec. destruct cdb; reflexivity.
Qed.

(** Steps 2 and 3 of getApiKey when both cache tiers miss: the answer is the
    Store's. *)
Lemma getApiKey_from_store c key w :
  apiKeys w !! key = None →
  cache_get c = Late ∨
    (cache_get c = Resolves ∧ redis w !! ("api-key:" +:+ key) = None) →
  db_up c = true →
  (getApiKey c key w).1 =
    Returned (new_ApiKeyEntity <$> select_active key (api_keys w)).
Proof.
  intros Hlocal Hmiss Hdb. open_world c w.
  destruct Hmiss as [->|[-> Hnone]]; run; rewrite Hlocal.
  - destruct (rd !! ("api-key:" +:+ key)) as [[[s|h] t]|]; run;
      destruct (select_active key tbl); destruct cput; reflexivity.
  - rewrite Hnone. run.
    destruct (select_active key tbl); destruct cput; reflexivity.
Qed.


(** The first thing update does, whatever the collaborators answer, is to
    hand its statement and parameters to the Store. *)
Lemma update_sends_statement c key fields w :
  trace (update c key fields w).2 !! length (trace w) =
    Some (StoreQuery (Update (update_query (updateString key fields))
                        (update_build key fields).2)).
Proof.
  open_world c w. unfold update.
  set (rv := (update_build key fields).2) in *. clearbody rv.
  run. destruct cdb; run;
    [destruct (exec_update (assignments fields) rv tbl); run;
     [destruct cput, cbus; run|]|];
    rewrite <- ?app_assoc; apply list_lookup_middle; reflexivity.
Qed.

(** C10: when some supplied field is defined, the SET clause update builds is
    the comma-separated list of one assignment per defined field, without a
    trailing comma, and is not empty, and the statement update hands to the
    Store is UPDATE api_keys, SET with this clause, WHERE key = $/key/; when
    every field is undefined the clause is empty, the statement reads SET
    directly followed by WHERE, the Store rejects it and update stops
    there. *)
Theorem update_set_clause key fields :
  (Exists (λ field, is_Some field.2) fields →
     updateString key fields = set_clause (assignments fields) ∧
     assignments fields =
       (λ field, (snakeCase field.1, field.1)) <$>
         filter (λ field, is_Some field.2) fields ∧
     updateString key fields ≠ "" ∧
     ∀ c w, trace (update c key fields w).2 !! length (trace w) =
       Some (StoreQuery
               (Update ("UPDATE api_keys"
                        +:+ String (Ascii.ascii_of_nat 10) "                   SET "
                        +:+ set_clause (assignments fields)
                        +:+ String (Ascii.ascii_of_nat 10)
                              "                   WHERE key = $/key/")
                       (update_build key fields).2))) ∧
  (Forall (λ field, field.2 = None) fields →
     updateString key fields = "" ∧
     ∀ c w, update c key fields w =
       (Thrown DbError,
        add_event
          (StoreQuery
             (Update ("UPDATE api_keys"
                      +:+ String (Ascii.ascii_of_nat 10) "                   SET "
                      +:+ String (Ascii.ascii_of_nat 10)
                            "                   WHERE key = $/key/")
                     {["key" := JsString key]})) w)).
Proof.
  split.
  - intros Hsome. apply assignments_nonempty in Hsome.
    assert (Hclause : updateString key fields = set_clause (assignments fields))
      by (by rewrite updateString_with_commas, trimEnd_with_commas).
    split; [exact Hclause|]. split; [apply assignments_defined|].
    split; [rewrite Hclause; by apply set_clause_nonempty|].
    intros c w. rewrite update_sends_statement, Hclause. reflexivity.
  - intros Hnone.
    assert (Hclause : updateString key fields = "")
      by (rewrite updateString_with_commas, assignments_undefined by done;
          reflexivity).
    split; [exact Hclause|]. intros c w.
    rewrite update_run_rejected.
    + by rewrite Hclause, update_build_undefined.
    + by rewrite assignments_undefined.
Qed.

(** ** getApiKey: the remaining branches *)

(** Splits on what the cache holds, what JSON.parse and the Store answer and
    how the writes go. *)
Ltac branches :=
  repeat (match goal with
          | |- context [decide ?P] => destruct (decide P)
          | |- context [JSON_parse ?s] => destruct (JSON_parse s)
          | |- context [select_active ?k ?t] => destruct (select_active k t)
          | |- context [match ?b with true => _ | false => _ end] =>
              is_var b; destruct b
          | |- context [match ?r with Resolves => _ | Late => _ | Rejects => _ end] =>
              is_var r; destruct r
          end; run).

(** X1: getApiKey never rejects. It resolves either with an entity, which the
    process-local map then holds under the key, or with null, and then the
    process-local map is as it was. *)
Theorem getApiKey_result_cached c key w :
  (∃ e, (getApiKey c key w).1 = Returned (Some e) ∧
        apiKeys (getApiKey c key w).2 !! key = Some e) ∨
  ((getApiKey c key w).1 = Returned None ∧
   apiKeys (getApiKey c key w).2 = apiKeys w).
Proof.
  assert (Hset : ∀ (m : gmap string ApiKeyEntity) e,
            <[key := e]> m !! key = Some e) by (intros; apply lookup_insert_eq).
  open_world c w. run.
  destruct (local !! key) as [e|] eqn:Hlocal; [left; eauto|].
  destruct cget; run;
    destruct (rd !! ("api-key:" +:+ key)) as [[[s|h] t]|]; run;
    branches;
    first [ left; eexists; split; [reflexivity | apply Hset]
          | right; split; reflexivity ].
Qed.

(** A positive entry in redis, run to the end. *)
Lemma getApiKey_cache_hit_run c key w s t row :
  apiKeys w !! key = None →
  cache_get c = Resolves →
  redis w !! ("api-key:" +:+ key) = Some {| value := RString s; ttl := t |} →
  s ≠ "" →
  s ≠ "empty" →
  JSON_parse s = Some row →
  getApiKey c key w =
    (Returned (Some (new_ApiKeyEntity row)),
     set_apiKeys (<[key := new_ApiKeyEntity row]> (apiKeys w))
       (add_event (RedisCall (GET ("api-key:" +:+ key))) w)).
Proof.
  intros Hlocal Hget Hredis Hnonempty Hmarker Hparse. open_world c w. run.
  rewrite Hlocal, Hredis. run.
  destruct (decide (s = "")); [done|]. destruct (decide (s = "empty")); [done|].
  rewrite Hparse. reflexivity.
Qed.

(** X3: a non-empty redis value other than the marker is parsed and served:
    the entity built from it is returned and put into the process-local map.
    The Store is not asked, so the entity is served whatever the table holds
    for the key, and redis is not written. *)
Theorem getApiKey_cache_hit c key w s t row :
  apiKeys w !! key = None →
  cache_get c = Resolves →
  redis w !! ("api-key:" +:+ key) = Some {| value := RString s; ttl := t |} →
  s ≠ "" →
  s ≠ "empty" →
  JSON_parse s = Some row →
  let after := (getApiKey c key w).2 in
  (getApiKey c key w).1 = Returned (Some (new_ApiKeyEntity row)) ∧
  apiKeys after = <[key := new_ApiKeyEntity row]> (apiKeys w) ∧
  trace after = trace w ++ [RedisCall (GET ("api-key:" +:+ key))] ∧
  redis after = redis w ∧
  api_keys after = api_keys w.
Proof.
  intros Hlocal Hget Hredis Hnonempty Hmarker Hparse after. subst after.
  rewrite (getApiKey_cache_hit_run c key w s t row) by assumption.
  repeat split.
Qed.

(** X4: a redis value that JSON.parse rejects ends the lookup in the catch
    block: the failure is logged and null is returned, the Store is not
    asked and the bad value stays in redis. *)
Theorem getApiKey_cache_unparsable c key w s t :
  apiKeys w !! key = None →
  cache_get c = Resolves →
  redis w !! ("api-key:" +:+ key) = Some {| value := RString s; ttl := t |} →
  s ≠ "" →
  s ≠ "empty" →
  JSON_parse s = None →
  getApiKey c key w =
    (Returned None,
     add_event (LogError "get-api-key")
       (add_event (RedisCall (GET ("api-key:" +:+ key))) w)).
Proof.
  intros Hlocal Hget Hredis Hnonempty Hmarker Hparse. open_world c w. run.
  rewrite Hlocal, Hredis. run.
  destruct (decide (s = "")); [done|]. destruct (decide (s = "empty")); [done|].
  rewrite Hparse. reflexivity.
Qed.

(** X5: the empty string in redis is falsy and counts as a miss: the Store
    is asked, its answer is returned, and an active row overwrites the empty
    value. *)
Theorem getApiKey_empty_value_is_miss c key w t row :
  apiKeys w !! key = None →
  cache_get c = Resolves →
  cache_put c ≠ Rejects →
  db_up c = true →
  redis w !! ("api-key:" +:+ key) = Some {| value := RString ""; ttl := t |} →
  select_active key (api_keys w) = Some row →
  (getApiKey c key w).1 = Returned (Some (new_ApiKeyEntity row)) ∧
  trace (getApiKey c key w).2 =
    trace w ++ [RedisCall (GET ("api-key:" +:+ key));
                StoreQuery (SelectActive key);
                RedisCall (SET ("api-key:" +:+ key) (JSON_stringify row))] ∧
  redis (getApiKey c key w).2 !! ("api-key:" +:+ key) =
    Some {| value := RString (JSON_stringify row); ttl := None |}.
Proof.
  intros Hlocal Hget Hput Hdb Hredis Hrow. open_world c w. run.
  rewrite Hlocal, Hredis. run.
  destruct (decide ("" = "")); [|done]. run. rewrite Hrow.
  destruct cput; try done; run; rewrite lookup_insert_eq, <- !app_assoc; auto.
Qed.

(** X6: when both cache tiers miss and the Store query fails, getApiKey logs
    and returns null without writing the negative marker: a Store outage
    leaves redis and the process-local map as they were. *)
Theorem getApiKey_store_failure c key w :
  apiKeys w !! key = None →
  cache_get c = Late ∨
    (cache_get c = Resolves ∧ redis w !! ("api-key:" +:+ key) = None) →
  db_up c = false →
  getApiKey c key w =
    (Returned None,
     add_event (LogError "get-api-key")
       (add_event (StoreQuery (SelectActive key))
          (add_event (RedisCall (GET ("api-key:" +:+ key))) w))).
Proof.
  intros Hlocal Hmiss Hdb. open_world c w.
  destruct Hmiss as [->|[-> Hnone]]; run; rewrite Hlocal.
  - destruct (rd !! ("api-key:" +:+ key)) as [[[s|h] t]|]; run;
      rewrite <- !app_assoc; reflexivity.
  - rewrite Hnone. run. rewrite <- !app_assoc. reflexivity.
Qed.

(** X7: getApiKey never writes the table or a caller's record, and in the
    two cache tiers it touches the entry of its key only. *)
Theorem getApiKey_frame c key w :
  heap (getApiKey c key w).2 = heap w ∧
  api_keys (getApiKey c key w).2 = api_keys w ∧
  (∀ k, k ≠ key → apiKeys (getApiKey c key w).2 !! k = apiKeys w !! k) ∧
  (∀ k, k ≠ "api-key:" +:+ key →
        redis (getApiKey c key w).2 !! k = redis w !! k).
Proof.
  assert (Hexpire : ∀ r : gmap string RedisEntry,
    <["api-key:" +:+ key := {| value := RString "empty"; ttl := None |}]> r
      !! ("api-key:" +:+ key)
    = Some {| value := RString "empty"; ttl := None |})
    by (intros; apply lookup_insert_eq).
  open_world c w. run.
  destruct (local !! key) as [e|] eqn:Hlocal; [auto|].
  destruct cget; run;
    destruct (rd !! ("api-key:" +:+ key)) as [[[s|h] t]|]; run;
    branches; rewrite ?Hexpire; run;
    (split; [reflexivity|]; split; [reflexivity|]; split; intros k Hk;
     rewrite ?lookup_insert_ne by done; reflexivity).
Qed.

(** ** create: failures, repetition, and the lookup that follows *)

Lemma keyed_has_key v : ∃ k, rec_key (keyed v) = Some k.
Proof.
  unfold keyed. destruct v as [an ws em ti [ky|]]; simpl; [|eauto].
  destruct (bool_decide (ky = "")); simpl; eauto.
Qed.

Lemma keyed_explicit v k : rec_key v = Some k → k ≠ "" → keyed v = v.
Proof.
  intros Hk Hne. unfold keyed, falsy. rewrite Hk.
  by rewrite bool_decide_eq_false_2.
Qed.

(** X8: create never rejects, whatever redis, the Store and the webhook do;
    it returns false exactly when the Store write fails. *)
Theorem create_never_rejects c values w v :
  heap w !! values = Some v →
  ∃ result, (create c values w).1 = Returned result ∧
            (result = CreateFalse ↔ db_up c = false).
Proof.
  intros Hv. destruct (keyed_has_key v) as [k Hk].
  rewrite (create_run c values w v k Hv Hk). cbn [fst].
  eexists. split; [reflexivity|]. destruct (db_up c); split; done.
Qed.

(** X9: when the Store write fails, create stops after logging: no redis
    command is sent, the webhook is not called, and redis, the table and the
    process-local map are as before. *)
Theorem create_store_failure c values w v :
  heap w !! values = Some v →
  db_up c = false →
  (create c values w).1 = Returned CreateFalse ∧
  trace (create c values w).2 =
    trace w ++ [StoreQuery (Insert (keyed v)); LogError "api-key"] ∧
  redis (create c values w).2 = redis w ∧
  api_keys (create c values w).2 = api_keys w ∧
  apiKeys (create c values w).2 = apiKeys w.
Proof.
  intros Hv Hdb. destruct (keyed_has_key v) as [k Hk].
  rewrite (create_run c values w v k Hv Hk).
  unfold create_trace, inserts. rewrite Hdb. repeat split.
Qed.

(** X10: a redis write that fails does not fail create: the error is logged,
    the key is returned, the row is in the table and a new row is still
    announced to the webhook. *)
Theorem create_cache_failure c values w v k :
  heap w !! values = Some v →
  rec_key (keyed v) = Some k →
  db_up c = true →
  cache_put c = Rejects →
  api_keys w !! k = None →
  (create c values w).1 = Returned (NewApiKeyResponse (Some k)) ∧
  trace (create c values w).2 =
    trace w ++ [StoreQuery (Insert (keyed v));
                RedisCall (HSET ("apikey:" +:+ k) (Object_entries (keyed v)));
                LogError "api-key";
                WebhookPost (keyed v)] ∧
  redis (create c values w).2 = redis w ∧
  api_keys (create c values w).2 !! k = Some (row_of_record k (keyed v)).
Proof.
  intros Hv Hk Hdb Hput Hfree.
  rewrite (create_run c values w v k Hv Hk).
  unfold create_trace, inserts, hset_result. rewrite Hdb, Hput, Hfree.
  cbn. rewrite lookup_insert_eq. repeat split.
Qed.

(** X11: a record that comes with a non-empty key is not changed and no key
    is derived: the insert carries the record as passed and, with the Store
    up, the key passed is the key returned. *)
Theorem create_keeps_explicit_key c values w v k :
  heap w !! values = Some v →
  rec_key v = Some k →
  k ≠ "" →
  heap (create c values w).2 = heap w ∧
  trace (create c values w).2 !! length (trace w) = Some (StoreQuery (Insert v)) ∧
  (db_up c = true → (create c values w).1 = Returned (NewApiKeyResponse (Some k))).
Proof.
  intros Hv Hk Hne.
  assert (Hkeyed : keyed v = v) by (by apply keyed_explicit with k).
  assert (Hk' : rec_key (keyed v) = Some k) by (by rewrite Hkeyed).
  rewrite (create_run c values w v k Hv Hk'). cbn [fst snd heap trace].
  rewrite Hkeyed. unfold falsy. rewrite Hk, bool_decide_eq_false_2 by done.
  repeat split.
  - unfold create_trace. apply list_lookup_middle. reflexivity.
  - intros ->. reflexivity.
Qed.

Lemma notifications_create_trace c k v w :
  notifications (create_trace c k v w) = if inserts c k w then [v] else [].
Proof.
  unfold create_trace, inserts.
  destruct (db_up c); cbn; [|reflexivity].
  destruct (hset_result c k v w), (api_keys w !! k); reflexivity.
Qed.

(** X12: create is idempotent: a second create on the same record returns
    the same key, leaves the table and the record as the first call left
    them and does not call the webhook again. *)
Theorem create_twice c1 c2 values w v k :
  heap w !! values = Some v →
  rec_key (keyed v) = Some k →
  k ≠ "" →
  db_up c1 = true →
  db_up c2 = true →
  let first := create c1 values w in
  let second := create c2 values first.2 in
  first.1 = Returned (NewApiKeyResponse (Some k)) ∧
  second.1 = first.1 ∧
  api_keys second.2 = api_keys first.2 ∧
  heap second.2 = heap first.2 ∧
  notifications (trace second.2) = notifications (trace first.2).
Proof.
  intros Hv Hk Hne Hdb1 Hdb2 first second. subst second.
  pose proof (create_run c1 values w v k Hv Hk) as Hfirst.
  fold first in Hfirst. destruct first as [result w1].
  injection Hfirst as -> Hw1. cbn [fst snd].
  assert (Hv1 : heap w1 !! values = Some (keyed v)).
  { rewrite Hw1. cbn [heap]. destruct (falsy (rec_key v)) eqn:Hfalsy.
    - apply lookup_insert_eq.
    - rewrite Hv. f_equal. unfold keyed. by rewrite Hfalsy. }
  assert (Htaken : inserts c2 k w1 = false).
  { unfold inserts. rewrite Hw1. cbn [api_keys]. unfold inserts.
    rewrite Hdb1. cbn [andb].
    destruct (api_keys w !! k) eqn:Hrow;
      rewrite ?Hrow, ?lookup_insert_eq; by destruct (db_up c2). }
  assert (Hfixed : keyed (keyed v) = keyed v) by (by apply keyed_explicit with k).
  assert (Hk2 : rec_key (keyed (keyed v)) = Some k) by (by rewrite Hfixed).
  rewrite (create_run c2 values w1 (keyed v) k Hv1 Hk2).
  cbn [fst snd heap api_keys trace].
  rewrite Hdb1, Hdb2, Htaken, notifications_app, notifications_create_trace.
  rewrite Htaken, app_nil_r.
  unfold falsy. rewrite Hk, bool_decide_eq_false_2 by done.
  repeat split.
Qed.


(** ** deleteCachedApiKey *)

Lemma deleteCachedApiKey_run c key w :
  deleteCachedApiKey c key w =
    (match cache_put c with Rejects => Thrown RedisError | _ => Returned () end,
     {| heap := heap w;
        apiKeys := delete key (apiKeys w);
        redis := match cache_put c with
                 | Rejects => redis w
                 | _ => delete ("api-key:" +:+ key) (redis w)
                 end;
        api_keys := api_keys w;
        trace := trace w ++ [RedisCall (DEL ("api-key:" +:+ key))] |}).
Proof. open_world c w. run. destruct cput; reflexivity. Qed.

(** X14: deleteCachedApiKey removes the key from both tiers and nothing
    else; the next getApiKey for the key asks the Store. *)
Theorem deleteCachedApiKey_evicts c c' key w :
  cache_put c ≠ Rejects →
  cache_get c' ≠ Rejects →
  db_up c' = true →
  let after := (deleteCachedApiKey c key w).2 in
  (deleteCachedApiKey c key w).1 = Returned () ∧
  apiKeys after = delete key (apiKeys w) ∧
  redis after = delete ("api-key:" +:+ key) (redis w) ∧
  api_keys after = api_keys w ∧
  (getApiKey c' key after).1 =
    Returned (new_ApiKeyEntity <$> select_active key (api_keys w)).
Proof.
  intros Hput Hget Hdb after. subst after. rewrite deleteCachedApiKey_run.
  cbn [fst snd apiKeys redis api_keys].
  destruct (cache_put c) eqn:Hreply; try done;
    (repeat split;
     rewrite getApiKey_from_store; cbn [apiKeys redis api_keys];
     [ reflexivity | apply lookup_delete_eq
     | rewrite lookup_delete_eq; destruct (cache_get c'); auto; done
     | assumption ]).
Qed.

(** X15: when redis rejects the DEL, deleteCachedApiKey rejects after it has
    removed the process-local entry; the redis entry stays, so the next
    getApiKey that reaches redis serves the entity cached there and puts it
    back into the process-local map. *)
Theorem deleteCachedApiKey_redis_failure c c' key w s t row :
  cache_put c = Rejects →
  redis w !! ("api-key:" +:+ key) = Some {| value := RString s; ttl := t |} →
  s ≠ "" →
  s ≠ "empty" →
  JSON_parse s = Some row →
  cache_get c' = Resolves →
  let after := (deleteCachedApiKey c key w).2 in
  (deleteCachedApiKey c key w).1 = Thrown RedisError ∧
  apiKeys after !! key = None ∧
  redis after = redis w ∧
  (getApiKey c' key after).1 = Returned (Some (new_ApiKeyEntity row)) ∧
  apiKeys (getApiKey c' key after).2 !! key = Some (new_ApiKeyEntity row).
Proof.
  intros Hput Hredis Hnonempty Hmarker Hparse Hget after. subst after.
  rewrite deleteCachedApiKey_run. rewrite Hput. cbn [fst snd apiKeys redis].
  split; [reflexivity|]. split; [apply lookup_delete_eq|].
  split; [reflexivity|].
  match goal with
  | |- context [getApiKey c' key ?w1] =>
      rewrite (getApiKey_cache_hit_run c' key w1 s t row)
  end; cbn [apiKeys redis]; try assumption.
  - split; [reflexivity|]. cbn. apply lookup_insert_eq.
  - apply lookup_delete_eq.
Qed.

(** ** update: failures and parameters *)

(** update, run to its end when the Store accepts the statement. *)
Lemma update_run_stored c key fields w t :
  db_up c = true →
  exec_update (assignments fields) (update_build key fields).2 (api_keys w) = Some t →
  update c key fields w =
    (match cache_put c, bus c with
     | Rejects, _ | _, Rejects => Thrown RedisError
     | _, _ => Returned ()
     end,
     {| heap := heap w;
        apiKeys := delete key (apiKeys w);
        redis := match cache_put c with
                 | Rejects => redis w
                 | _ => delete ("api-key:" +:+ key) (redis w)
                 end;
        api_keys := t;
        trace := trace w ++
          StoreQuery (Update (update_query (updateString key fields))
                        (update_build key fields).2) ::
          RedisCall (DEL ("api-key:" +:+ key)) ::
          match cache_put c with
          | Rejects => []
          | _ => [RedisCall (PUBLISH Channel_ApiKeyUpdated (JSON_stringify_key key))]
          end |}).
Proof.
  intros Hdb Hexec. open_world c w. unfold update.
  set (rv := (update_build key fields).2) in *. clearbody rv.
  run. rewrite Hexec.
  destruct cput, cbus; run; rewrite <- ?app_assoc; reflexivity.
Qed.

(** X16: when the Store is down, update rejects after sending the statement:
    no entry is evicted and nothing is published. *)
Theorem update_store_failure c key fields w :
  db_up c = false →
  update c key fields w =
    (Thrown DbError,
     add_event (StoreQuery (Update (update_query (updateString key fields))
                              (update_build key fields).2)) w).
Proof.
  intros Hdb. open_world c w. unfold update.
  set (rv := (update_build key fields).2) in *. clearbody rv.
  run. reflexivity.
Qed.

(** X17: update is not atomic. When redis rejects the eviction, update
    rejects with the row already changed and the process-local entry gone,
    the redis entry still in place and no invalidation published. *)
Theorem update_eviction_failure c key fields w t :
  db_up c = true →
  cache_put c = Rejects →
  exec_update (assignments fields) (update_build key fields).2 (api_keys w) = Some t →
  let after := (update c key fields w).2 in
  (update c key fields w).1 = Thrown RedisError ∧
  api_keys after = t ∧
  apiKeys after !! key = None ∧
  redis after = redis w ∧
  trace after = trace w ++
    [StoreQuery (Update (update_query (updateString key fields))
                   (update_build key fields).2);
     RedisCall (DEL ("api-key:" +:+ key))].
Proof.
  intros Hdb Hput Hexec after. subst after.
  rewrite (update_run_stored c key fields w t Hdb Hexec). rewrite Hput.
  cbn [fst snd apiKeys redis api_keys trace]. rewrite lookup_delete_eq.
  repeat split.
Qed.

(** X18: when only the publish is rejected, update rejects after the row is
    changed and both tiers of this process are evicted. *)
Theorem update_publish_failure c key fields w t :
  db_up c = true →
  cache_put c ≠ Rejects →
  bus c = Rejects →
  exec_update (assignments fields) (update_build key fields).2 (api_keys w) = Some t →
  let after := (update c key fields w).2 in
  (update c key fields w).1 = Thrown RedisError ∧
  api_keys after = t ∧
  apiKeys after !! key = None ∧
  redis after !! ("api-key:" +:+ key) = None.
Proof.
  intros Hdb Hput Hbus Hexec after. subst after.
  rewrite (update_run_stored c key fields w t Hdb Hexec). rewrite Hbus.
  cbn [fst snd apiKeys redis api_keys trace].
  destruct (cache_put c); try done; rewrite !lookup_delete_eq; repeat split.
Qed.

Lemma update_build_other (fields : Fields) acc name :
  name ∉ fields.*1 → (foldl update_step acc fields).2 !! name = acc.2 !! name.
Proof.
  revert acc. induction fields as [|[f value] rest IH]; intros acc Hnot;
    [reflexivity|].
  rewrite fmap_cons in Hnot. apply not_elem_of_cons in Hnot as [Hname Hnot].
  cbn [foldl]. rewrite IH by exact Hnot.
  unfold update_step. destruct value as [value|]; cbn [fst snd]; [|reflexivity].
  apply lookup_insert_ne. auto.
Qed.

(** X19: the parameters update hands to the Store. Each defined field is
    bound under its own name, so a defined field named key replaces the key
    the WHERE clause is bound to; without a field of that name the WHERE
    clause is bound to the key argument. *)
Theorem update_parameters key (fields : Fields) :
  NoDup fields.*1 →
  (∀ name value, (name, Some value) ∈ fields →
     (update_build key fields).2 !! name = Some value) ∧
  ("key" ∉ fields.*1 →
     (update_build key fields).2 !! "key" = Some (JsString key)).
Proof.
  intros Hnodup. split.
  - unfold update_build.
    generalize ("", ({["key" := JsString key]} : gmap string JsValue)).
    induction fields as [|[f v] rest IH]; intros acc name value Hin;
      [by apply elem_of_nil in Hin|].
    apply NoDup_cons in Hnodup as [Hfresh Hnodup].
    apply elem_of_cons in Hin as [Heq|Hin].
    + injection Heq as <- <-. cbn [foldl].
      rewrite update_build_other by exact Hfresh.
      unfold update_step. cbn [fst snd]. apply lookup_insert_eq.
    + cbn [foldl]. by apply IH.
  - intros Hnot. unfold update_build. rewrite update_build_other by exact Hnot.
    apply lookup_singleton_eq.
Qed.


(** ** logUsage *)

Lemma logUsage_no_key_run c request s :
  header request "x-api-key" = None →
  logUsage c request s =
    (Returned (),
     {| world := world s;
        info_log := info_log s ++
          [Metrics (request_log request ++ [("apiKey", LogAppName "No Key")])] |}).
Proof. intros Hkey. unfold logUsage. rewrite Hkey. reflexivity. Qed.

Lemma logUsage_with_key_run c request s key :
  header request "x-api-key" = Some key →
  ∃ result,
    (getApiKey c key (world s)).1 = Returned result ∧
    logUsage c request s =
      (Returned (),
       {| world := (getApiKey c key (world s)).2;
          info_log := info_log s ++
            [Metrics (request_log request ++
               [("apiKey", match result with
                           | Some apiKey => LogEntity apiKey
                           | None => LogAppName key
                           end)])] |}).
Proof.
  intros Hkey. destruct (getApiKey_resolves c key (world s)) as [result Hresult].
  exists result. split; [exact Hresult|].
  unfold logUsage. rewrite Hkey.
  destruct (getApiKey c key (world s)) as [outcome w1]. cbn [fst snd] in *.
  subst outcome. destruct result; reflexivity.
Qed.

(** X21: without an x-api-key header, or with an empty one, logUsage makes
    no lookup: no redis and no Store call is made and both cache tiers are
    untouched. It writes one metrics line whose apiKey is
    { app_name: "No Key" }, after the properties taken from the request. *)
Theorem logUsage_without_key c request s :
  req_headers request !! "x-api-key" = None ∨
    req_headers request !! "x-api-key" = Some "" →
  (logUsage c request s).1 = Returned () ∧
  world (logUsage c request s).2 = world s ∧
  info_log (logUsage c request s).2 =
    info_log s ++
      [Metrics (request_log request ++ [("apiKey", LogAppName "No Key")])].
Proof.
  intros Hkey.
  rewrite logUsage_no_key_run; [repeat split|].
  unfold header. by destruct Hkey as [->| ->].
Qed.

(** X22: with a non-empty key in the header, logUsage does to the caches and
    collaborators what getApiKey does for that key, and writes one metrics
    line: with the entity getApiKey returned, or with the key itself as
    app_name when getApiKey returned null. *)
Theorem logUsage_with_key c request s key :
  req_headers request !! "x-api-key" = Some key →
  key ≠ "" →
  (logUsage c request s).1 = Returned () ∧
  world (logUsage c request s).2 = (getApiKey c key (world s)).2 ∧
  (∀ apiKey, (getApiKey c key (world s)).1 = Returned (Some apiKey) →
     info_log (logUsage c request s).2 =
       info_log s ++ [Metrics (request_log request ++ [("apiKey", LogEntity apiKey)])]) ∧
  ((getApiKey c key (world s)).1 = Returned None →
     info_log (logUsage c request s).2 =
       info_log s ++ [Metrics (request_log request ++ [("apiKey", LogAppName key)])]).
Proof.
  intros Hheader Hne.
  assert (Hkey : header request "x-api-key" = Some key).
  { unfold header. rewrite Hheader. by destruct (decide (key = "")). }
  destruct (logUsage_with_key_run c request s key Hkey) as (result & Hresult & ->).
  cbn [fst snd world info_log]. rewrite Hresult.
  repeat split.
  - intros apiKey [= ->]. reflexivity.
  - intros [= ->]. reflexivity.
Qed.

(** X23: the catch block of logUsage is never reached, since getApiKey
    never rejects: for every request and whatever the collaborators answer,
    the only line logUsage appends is the metrics line, whose object starts
    with the route and the method and ends with apiKey. *)
Theorem logUsage_catch_unreachable c request s :
  ∃ middle who,
    info_log (logUsage c request s).2 =
      info_log s ++
        [Metrics ([("route", LogString (req_route_path request));
                   ("method", LogString (req_route_method request))]
                  ++ middle ++ [("apiKey", who)])].
Proof.
  assert (Hlog : ∃ middle, request_log request =
            [("route", LogString (req_route_path request));
             ("method", LogString (req_route_method request))] ++ middle).
  { unfold request_log, log_any, log_header.
    repeat match goal with
           | |- context [if ?b then _ else _] => destruct b
           | |- context [match ?o with Some _ => _ | None => _ end] => destruct o
           end;
      rewrite <- ?app_assoc; eexists; reflexivity. }
  destruct Hlog as [middle Hlog].
  destruct (header request "x-api-key") as [key|] eqn:Hkey.
  - destruct (logUsage_with_key_run c request s key Hkey) as (result & _ & ->).
    cbn [snd info_log]. rewrite Hlog.
    eexists middle, _. by rewrite <- app_assoc.
  - rewrite (logUsage_no_key_run c request s Hkey).
    cbn [snd info_log]. rewrite Hlog.
    eexists middle, _. by rewrite <- app_assoc.
Qed.

End Properties.

(** * The manager on concrete inputs *)

Section Examples.
#[local] Existing Instance Sample.externals.
Import Sample.

(** The cache read fails for "abc", which has an active row: getApiKey logs
    and returns null; the trace shows no Store query. *)
Lemma getApiKey_cache_error_counterexample :
  select_active "abc" (api_keys abc_world) = Some abc_row ∧
  (getApiKey cache_down "abc" abc_world).1 = Returned None ∧
  (getApiKey cache_down "abc" abc_world).1
    ≠ Returned (Some (new_ApiKeyEntity abc_row)) ∧
  trace (getApiKey cache_down "abc" abc_world).2 =
    [RedisCall (GET "api-key:abc"); LogError "get-api-key"].
Proof. repeat split; try reflexivity. discriminate. Qed.

Lemma getApiKey_cache_read_error_witness :
  apiKeys abc_world !! "abc" = None ∧
  getApiKey cache_down "abc" abc_world =
    (Returned None,
     add_event (LogError "get-api-key")
       (add_event (RedisCall (GET ("api-key:" +:+ "abc"))) abc_world)).
Proof.
  split; [reflexivity|].
  apply (getApiKey_cache_read_error cache_down "abc" abc_world); reflexivity.
Defined.

Lemma getApiKey_cache_timeout_witness :
  (getApiKey slow_cache "abc" abc_world).1 = Returned (Some (new_ApiKeyEntity abc_row)) ∧
  trace (getApiKey slow_cache "abc" abc_world).2 =
    trace abc_world ++
      [RedisCall (GET ("api-key:" +:+ "abc")); StoreQuery (SelectActive "abc");
       RedisCall (SET ("api-key:" +:+ "abc") (JSON_stringify abc_row))].
Proof.
  apply (getApiKey_cache_timeout slow_cache "abc" abc_world abc_row);
    reflexivity.
Defined.

(** "zzz" has no row and no positive entry in either tier, but redis holds
    its negative marker with 100 seconds left: getApiKey returns null and
    writes nothing, so the marker keeps its expiration. *)
Lemma getApiKey_negative_marker_counterexample :
  apiKeys probed_world !! "zzz" = None ∧
  select_active "zzz" (api_keys probed_world) = None ∧
  (getApiKey calm "zzz" probed_world).1 = Returned None ∧
  trace (getApiKey calm "zzz" probed_world).2 = [RedisCall (GET "api-key:zzz")] ∧
  redis (getApiKey calm "zzz" probed_world).2 !! "api-key:zzz" =
    Some {| value := RString "empty"; ttl := Some 100%Z |} ∧
  redis (getApiKey calm "zzz" probed_world).2 !! "api-key:zzz"
    ≠ Some {| value := RString "empty"; ttl := Some 86400%Z |}.
Proof. repeat split; try reflexivity. vm_compute. discriminate. Qed.

Lemma getApiKey_unknown_key_witness :
  (getApiKey calm "zzz" abc_world).1 = Returned None ∧
  trace (getApiKey calm "zzz" abc_world).2 =
    trace abc_world ++
      [RedisCall (GET ("api-key:" +:+ "zzz")); StoreQuery (SelectActive "zzz");
       RedisPipeline [SET ("api-key:" +:+ "zzz") "empty";
                      EXPIRE ("api-key:" +:+ "zzz") 86400%Z]] ∧
  redis (getApiKey calm "zzz" abc_world).2 !! ("api-key:" +:+ "zzz") =
    Some {| value := RString "empty"; ttl := Some 86400%Z |} ∧
  apiKeys (getApiKey calm "zzz" abc_world).2 = apiKeys abc_world.
Proof.
  apply (getApiKey_unknown_key calm "zzz" abc_world);
    [reflexivity | right; split; reflexivity | discriminate | reflexivity
    | reflexivity].
Defined.

(** The second call runs with every collaborator down and still answers. *)
Lemma getApiKey_populates_then_local_witness :
  let first := getApiKey calm "abc" abc_world in
  first.1 = Returned (Some (new_ApiKeyEntity abc_row)) ∧
  apiKeys first.2 !! "abc" = Some (new_ApiKeyEntity abc_row) ∧
  redis first.2 !! ("api-key:" +:+ "abc") =
    Some {| value := RString (JSON_stringify abc_row); ttl := None |} ∧
  getApiKey all_down "abc" first.2 =
    (Returned (Some (new_ApiKeyEntity abc_row)), first.2).
Proof.
  apply (getApiKey_populates_then_local calm all_down "abc" abc_world abc_row);
    first [reflexivity | discriminate].
Defined.

(** C2: create on a record with key "abc" writes its hash under "apikey:abc";
    the getApiKey that follows reads "api-key:abc", finds nothing and goes to
    the Store. *)
Theorem create_caches_under_other_key :
  let created := create calm 0 abc_caller_world in
  created.1 = Returned (NewApiKeyResponse (Some "abc")) ∧
  redis created.2 !! "apikey:abc" =
    Some {| value := RHash (Object_entries abc_record); ttl := None |} ∧
  redis created.2 !! "api-key:abc" = None ∧
  trace (getApiKey calm "abc" created.2).2 =
    trace created.2 ++
      [RedisCall (GET "api-key:abc"); StoreQuery (SelectActive "abc");
       RedisCall (SET "api-key:abc" "{key:abc,app_name:Foo}")].
Proof. vm_compute. repeat split; reflexivity. Qed.

(** [foo] comes without a key and [Sample_blank.foo_blank] with the key "",
    both with the same email and website: create derives a key for each, and
    the two keys differ. *)
Lemma create_derived_key_counterexample :
  falsy (rec_key foo) = true ∧
  falsy (rec_key Sample_blank.foo_blank) = true ∧
  rec_email foo = rec_email Sample_blank.foo_blank ∧
  rec_website foo = rec_website Sample_blank.foo_blank ∧
  (create calm 0 foo_world).1 =
    Returned (NewApiKeyResponse (Some "uuid(undefineda@b.comfoo.xyz)")) ∧
  (create calm 0 Sample_blank.foo_blank_world).1 =
    Returned (NewApiKeyResponse (Some "uuid(a@b.comfoo.xyz)")) ∧
  (create calm 0 foo_world).1 ≠ (create calm 0 Sample_blank.foo_blank_world).1.
Proof. repeat split; try reflexivity. vm_compute. discriminate. Qed.

(** Two records with the key "", the same email and website and different
    application names and tiers. *)
Lemma create_derived_key_deterministic_witness :
  ∃ prefix,
    (rec_key Sample_blank.foo_blank = None ∧ prefix = "undefined" ∨
     rec_key Sample_blank.foo_blank = Some "" ∧ prefix = "") ∧
    (create calm 0 Sample_blank.foo_blank_world).1 =
      Returned (NewApiKeyResponse
        (Some (getUuidByString
                 (prefix +:+ rec_email Sample_blank.foo_blank
                  +:+ rec_website Sample_blank.foo_blank)))) ∧
    (create db_up_only 7 Sample_blank.bar_blank_world).1 =
      (create calm 0 Sample_blank.foo_blank_world).1.
Proof.
  apply (create_derived_key_deterministic calm db_up_only 0 7
           Sample_blank.foo_blank_world Sample_blank.bar_blank_world
           Sample_blank.foo_blank Sample_blank.bar_blank); reflexivity.
Defined.

(** The first create of [foo] adds the row and posts once; the post failing
    changes nothing in what is returned. *)
Lemma create_notifies_iff_inserted_witness :
  let after := (create calm 0 foo_world).2 in
  notifications (trace after) = notifications (trace foo_world) ++ [keyed foo] ∧
  api_keys after !! "uuid(undefineda@b.comfoo.xyz)" =
    Some (row_of_record "uuid(undefineda@b.comfoo.xyz)" (keyed foo)) ∧
  (create (with_webhook false calm) 0 foo_world).1 = (create calm 0 foo_world).1.
Proof.
  destruct (create_notifies_iff_inserted calm 0 foo_world foo
              "uuid(undefineda@b.comfoo.xyz)")
    as (Hinserted & _ & Hwebhook); [reflexivity | reflexivity |].
  destruct Hinserted as [Hposts Hrow]; [split; reflexivity|].
  split; [exact Hposts | split; [exact Hrow | exact (Hwebhook false)]].
Defined.



Lemma update_set_clause_witness :
  Exists (λ field : string * option JsValue, is_Some field.2) tier5 ∧
  updateString "abc" tier5 = set_clause (assignments tier5) ∧
  updateString "abc" tier5 ≠ "" ∧
  trace (update calm "abc" tier5 cached_world).2 !! length (trace cached_world) =
    Some (StoreQuery
            (Update ("UPDATE api_keys"
                     +:+ String (Ascii.ascii_of_nat 10) "                   SET "
                     +:+ "tier = $/tier/"
                     +:+ String (Ascii.ascii_of_nat 10)
                           "                   WHERE key = $/key/")
                    (update_build "abc" tier5).2)).
Proof.
  assert (Hdefined : Exists (λ field : string * option JsValue, is_Some field.2) tier5)
    by (left; simpl; eauto).
  split; [exact Hdefined|].
  destruct (proj1 (update_set_clause "abc" tier5) Hdefined)
    as (Hclause & _ & Hne & Hstatement).
  split; [exact Hclause|]. split; [exact Hne|].
  exact (Hstatement calm cached_world).
Defined.

(** ** The remaining branches on concrete inputs *)

Lemma getApiKey_negative_hit_witness :
  redis probed_world !! ("api-key:" +:+ "zzz") =
    Some {| value := RString "empty"; ttl := Some 100%Z |} ∧
  getApiKey calm "zzz" probed_world =
    (Returned None,
     add_event (RedisCall (GET ("api-key:" +:+ "zzz"))) probed_world).
Proof.
  split; [reflexivity|].
  apply (getApiKey_negative_hit calm "zzz" probed_world (Some 100%Z));
    reflexivity.
Defined.

(** With a JSON.parse that rejects everything, the cached value of "abc" is
    of no use. *)
Lemma getApiKey_cache_unparsable_witness :
  getApiKey calm "abc" Sample_cache.redis_only_world =
    (Returned None,
     add_event (LogError "get-api-key")
       (add_event (RedisCall (GET ("api-key:" +:+ "abc")))
          Sample_cache.redis_only_world)).
Proof.
  apply (getApiKey_cache_unparsable calm "abc" Sample_cache.redis_only_world
           Sample_cache.cached_abc None);
    first [reflexivity | discriminate].
Defined.

Lemma getApiKey_empty_value_is_miss_witness :
  (getApiKey calm "abc" Sample_cache.blank_entry_world).1 =
    Returned (Some (new_ApiKeyEntity abc_row)) ∧
  trace (getApiKey calm "abc" Sample_cache.blank_entry_world).2 =
    trace Sample_cache.blank_entry_world ++
      [RedisCall (GET ("api-key:" +:+ "abc")); StoreQuery (SelectActive "abc");
       RedisCall (SET ("api-key:" +:+ "abc") (JSON_stringify abc_row))] ∧
  redis (getApiKey calm "abc" Sample_cache.blank_entry_world).2
    !! ("api-key:" +:+ "abc") =
    Some {| value := RString (JSON_stringify abc_row); ttl := None |}.
Proof.
  apply (getApiKey_empty_value_is_miss calm "abc" Sample_cache.blank_entry_world
           None abc_row);
    first [reflexivity | discriminate].
Defined.

Lemma getApiKey_store_failure_witness :
  getApiKey db_down "abc" abc_world =
    (Returned None,
     add_event (LogError "get-api-key")
       (add_event (StoreQuery (SelectActive "abc"))
          (add_event (RedisCall (GET ("api-key:" +:+ "abc"))) abc_world))).
Proof.
  apply (getApiKey_store_failure db_down "abc" abc_world);
    [reflexivity | right; split; reflexivity | reflexivity].
Defined.

(** Every collaborator down: create still resolves, with false. *)
Lemma create_never_rejects_witness :
  ∃ result, (create all_down 0 foo_world).1 = Returned result ∧
            (result = CreateFalse ↔ db_up all_down = false).
Proof. apply (create_never_rejects all_down 0 foo_world foo). reflexivity. Defined.

Lemma create_store_failure_witness :
  (create db_down 0 foo_world).1 = Returned CreateFalse ∧
  trace (create db_down 0 foo_world).2 =
    trace foo_world ++ [StoreQuery (Insert (keyed foo)); LogError "api-key"] ∧
  redis (create db_down 0 foo_world).2 = redis foo_world ∧
  api_keys (create db_down 0 foo_world).2 = api_keys foo_world ∧
  apiKeys (create db_down 0 foo_world).2 = apiKeys foo_world.
Proof.
  apply (create_store_failure db_down 0 foo_world foo); reflexivity.
Defined.

Lemma create_cache_failure_witness :
  (create db_up_only 0 foo_world).1 =
    Returned (NewApiKeyResponse (Some "uuid(undefineda@b.comfoo.xyz)")) ∧
  trace (create db_up_only 0 foo_world).2 =
    trace foo_world ++
      [StoreQuery (Insert (keyed foo));
       RedisCall (HSET ("apikey:" +:+ "uuid(undefineda@b.comfoo.xyz)")
                    (Object_entries (keyed foo)));
       LogError "api-key";
       WebhookPost (keyed foo)] ∧
  redis (create db_up_only 0 foo_world).2 = redis foo_world ∧
  api_keys (create db_up_only 0 foo_world).2 !! "uuid(undefineda@b.comfoo.xyz)" =
    Some (row_of_record "uuid(undefineda@b.comfoo.xyz)" (keyed foo)).
Proof.
  apply (create_cache_failure db_up_only 0 foo_world foo
           "uuid(undefineda@b.comfoo.xyz)"); reflexivity.
Defined.

Lemma create_keeps_explicit_key_witness :
  heap (create calm 0 abc_caller_world).2 = heap abc_caller_world ∧
  trace (create calm 0 abc_caller_world).2 !! length (trace abc_caller_world) =
    Some (StoreQuery (Insert abc_record)) ∧
  (create calm 0 abc_caller_world).1 = Returned (NewApiKeyResponse (Some "abc")).
Proof.
  destruct (create_keeps_explicit_key calm 0 abc_caller_world abc_record "abc")
    as (Hheap & Hinsert & Hkey); [reflexivity | reflexivity | discriminate |].
  split; [exact Hheap | split; [exact Hinsert | apply Hkey; reflexivity]].
Defined.

(** The scenario of two creates for the same identity: the second one meets
    a failing webhook and a failing redis, and returns the same key. *)
Lemma create_twice_witness :
  let first := create calm 0 foo_world in
  let second := create db_up_only 0 first.2 in
  first.1 = Returned (NewApiKeyResponse (Some "uuid(undefineda@b.comfoo.xyz)")) ∧
  second.1 = first.1 ∧
  api_keys second.2 = api_keys first.2 ∧
  heap second.2 = heap first.2 ∧
  notifications (trace second.2) = notifications (trace first.2).
Proof.
  apply (create_twice calm db_up_only 0 foo_world foo
           "uuid(undefineda@b.comfoo.xyz)");
    first [reflexivity | discriminate].
Defined.


Lemma deleteCachedApiKey_evicts_witness :
  let after := (deleteCachedApiKey calm "abc" cached_world).2 in
  (deleteCachedApiKey calm "abc" cached_world).1 = Returned () ∧
  apiKeys after = delete "abc" (apiKeys cached_world) ∧
  redis after = delete ("api-key:" +:+ "abc") (redis cached_world) ∧
  api_keys after = api_keys cached_world ∧
  (getApiKey calm "abc" after).1 =
    Returned (new_ApiKeyEntity <$> select_active "abc" (api_keys cached_world)).
Proof.
  apply (deleteCachedApiKey_evicts calm calm "abc" cached_world);
    first [reflexivity | discriminate].
Defined.

Lemma update_store_failure_witness :
  update db_down "abc" tier5 cached_world =
    (Thrown DbError,
     add_event (StoreQuery (Update (update_query (updateString "abc" tier5))
                              (update_build "abc" tier5).2)) cached_world).
Proof. apply (update_store_failure db_down "abc" tier5 cached_world). reflexivity. Defined.

(** The row gets tier 5 while redis keeps serving the row with tier 1. *)
Lemma update_eviction_failure_witness :
  let after := (update db_up_only "abc" tier5 cached_world).2 in
  (update db_up_only "abc" tier5 cached_world).1 = Thrown RedisError ∧
  api_keys after = {[ "abc" := abc_row_tier5 ]} ∧
  apiKeys after !! "abc" = None ∧
  redis after = redis cached_world ∧
  trace after = trace cached_world ++
    [StoreQuery (Update (update_query (updateString "abc" tier5))
                   (update_build "abc" tier5).2);
     RedisCall (DEL ("api-key:" +:+ "abc"))].
Proof.
  apply (update_eviction_failure db_up_only "abc" tier5 cached_world
           {[ "abc" := abc_row_tier5 ]}); reflexivity.
Defined.

Lemma update_publish_failure_witness :
  let after := (update Sample_cache.bus_down "abc" tier5 cached_world).2 in
  (update Sample_cache.bus_down "abc" tier5 cached_world).1 = Thrown RedisError ∧
  api_keys after = {[ "abc" := abc_row_tier5 ]} ∧
  apiKeys after !! "abc" = None ∧
  redis after !! ("api-key:" +:+ "abc") = None.
Proof.
  apply (update_publish_failure Sample_cache.bus_down "abc" tier5 cached_world
           {[ "abc" := abc_row_tier5 ]});
    first [reflexivity | discriminate].
Defined.

Lemma update_parameters_witness :
  (update_build "abc" tier5).2 !! "tier" = Some (JsNumber 5) ∧
  (update_build "abc" tier5).2 !! "key" = Some (JsString "abc").
Proof.
  destruct (update_parameters "abc" tier5) as [Hfields Hkey].
  - apply (bool_decide_unpack _). vm_compute. exact I.
  - split.
    + apply Hfields. constructor.
    + apply Hkey. apply (bool_decide_unpack _). vm_compute. exact I.
Defined.


(** An empty x-api-key header counts as no key. *)
Lemma logUsage_without_key_witness :
  (logUsage all_down Sample_cache.anonymous (Sample_cache.quiet abc_world)).1 =
    Returned () ∧
  world (logUsage all_down Sample_cache.anonymous (Sample_cache.quiet abc_world)).2 =
    abc_world ∧
  info_log (logUsage all_down Sample_cache.anonymous (Sample_cache.quiet abc_world)).2 =
    [] ++ [Metrics (request_log Sample_cache.anonymous ++
                      [("apiKey", LogAppName "No Key")])].
Proof.
  apply (logUsage_without_key all_down Sample_cache.anonymous
           (Sample_cache.quiet abc_world)).
  right. reflexivity.
Defined.

(** The key "zzz" has no row: the metrics line names the key as app_name. *)
Lemma logUsage_with_key_witness :
  world (logUsage calm Sample_cache.wrong_key (Sample_cache.quiet abc_world)).2 =
    (getApiKey calm "zzz" abc_world).2 ∧
  info_log (logUsage calm Sample_cache.wrong_key (Sample_cache.quiet abc_world)).2 =
    [Metrics (request_log Sample_cache.wrong_key ++ [("apiKey", LogAppName "zzz")])].
Proof.
  destruct (logUsage_with_key calm Sample_cache.wrong_key
              (Sample_cache.quiet abc_world) "zzz")
    as (_ & Hworld & _ & Hnull); [reflexivity | discriminate |].
  split; [exact Hworld | apply Hnull; reflexivity].
Defined.

End Examples.

(** * The manager with a JSON.parse that reads the sample row *)

Section Examples_cache.
#[local] Existing Instance Sample_cache.externals.
Import Sample Sample_cache.

(** redis holds "abc" and the table is empty: the entity comes from redis. *)
Lemma getApiKey_cache_hit_witness :
  let after := (getApiKey calm "abc" redis_only_world).2 in
  (getApiKey calm "abc" redis_only_world).1 = Returned (Some (new_ApiKeyEntity abc_row)) ∧
  apiKeys after = <["abc" := new_ApiKeyEntity abc_row]> (apiKeys redis_only_world) ∧
  trace after = trace redis_only_world ++ [RedisCall (GET ("api-key:" +:+ "abc"))] ∧
  redis after = redis redis_only_world ∧
  api_keys after = api_keys redis_only_world.
Proof.
  apply (getApiKey_cache_hit calm "abc" redis_only_world cached_abc None abc_row);
    first [reflexivity | discriminate].
Defined.

Lemma deleteCachedApiKey_redis_failure_witness :
  let after := (deleteCachedApiKey db_up_only "abc" cached_world).2 in
  (deleteCachedApiKey db_up_only "abc" cached_world).1 = Thrown RedisError ∧
  apiKeys after !! "abc" = None ∧
  redis after = redis cached_world ∧
  (getApiKey calm "abc" after).1 = Returned (Some (new_ApiKeyEntity abc_row)) ∧
  apiKeys (getApiKey calm "abc" after).2 !! "abc" = Some (new_ApiKeyEntity abc_row).
Proof.
  apply (deleteCachedApiKey_redis_failure db_up_only calm "abc" cached_world
           cached_abc None abc_row);
    first [reflexivity | discriminate].
Defined.

End Examples_cache.
